(** * libvirt/utils_net.go: network ranges, MAC addresses and ports

    A shallow embedding of [libvirt/utils_net.go] of the libvirt
    Terraform provider, with the parts of Go's [net], [math/rand] and
    [fmt] packages that the file calls, and the properties of the
    address-range and identifier-generation code.

    Bytes are integers in [0, 256) with the 8-bit wrap-around written
    out.  A Go slice is an [option (list Z)]: [None] is the [nil] slice,
    which the code tests for, and [Some l] a slice holding [l]. *)

From Stdlib Require Import ZArith Lia Bool String Ascii.
From stdpp Require Import base list.

#[local] Open Scope Z_scope.

(** ** Bytes *)

Module Byte8.

Definition byte_ok (b : Z) : Prop := 0 <= b < 256.

Definition byte_okb (b : Z) : bool := (0 <=? b) && (b <? 256).

(** Conversion of an integer to [uint8]: the low eight bits. *)
Definition uint8 (z : Z) : Z := Z.land z 255.

(** Go's [^b] on a byte. *)
Definition byte_not (b : Z) : Z := uint8 (Z.lnot b).

(** Go's [b << 1] on a byte. *)
Definition byte_shl1 (b : Z) : Z := uint8 (Z.shiftl b 1).

(** The bits of a byte, most significant first. *)
Definition byte_bits (b : Z) : list bool :=
  map (Z.testbit b) [7; 6; 5; 4; 3; 2; 1; 0].

(** All byte values, for checks by enumeration. *)
Definition all_bytes : list Z := map Z.of_nat (seq 0 256).

End Byte8.
Export Byte8.

(** ** Slices and run-time failures *)

Definition slice : Type := option (list Z).

(** The elements of a slice; [nil] has none. *)
Definition bytes (s : slice) : list Z :=
  match s with Some l => l | None => [] end.

Definition len (s : slice) : nat := length (bytes s).

(** [s[i]], or [None] where Go panics with index out of range. *)
Definition index (s : slice) (i : nat) : option Z := bytes s !! i.

Inductive panic : Type :=
| IndexOutOfRange
| InvalidArgument.

Inductive outcome (A : Type) : Type :=
| Returned (a : A)
| Panicked (p : panic).
Arguments Returned {A} a.
Arguments Panicked {A} p.

(** ** The functions of Go's [net] package that the file calls

    [IPv4], [To4], [To16], [Mask], [CIDRMask], [simpleMaskLength] and
    [Size] follow the source of the standard library, [net/ip.go],
    statement by statement; a result that is the [nil] slice there is
    [None] here. *)

Module net.

Definition IP : Type := slice.
Definition IPMask : Type := slice.

Record IPNet : Type := mkIPNet { IPNet_IP : IP; IPNet_Mask : IPMask }.

Definition IPv4len : nat := 4.
Definition IPv6len : nat := 16.

Definition v4InV6Prefix : list Z := [0; 0; 0; 0; 0; 0; 0; 0; 0; 0; 255; 255].

(** [IPv4(a, b, c, d)]: the 16-byte form of an IPv4 address. *)
Definition IPv4 (a b c d : Z) : IP := Some (v4InV6Prefix ++ [a; b; c; d]).

Definition isZeros (p : list Z) : bool := forallb (fun b => b =? 0) p.

Definition allFF (b : list Z) : bool := forallb (fun c => c =? 255) b.

Definition bytes_eqb (a b : list Z) : bool :=
  (length a =? length b)%nat && forallb (fun p => fst p =? snd p) (zip a b).

(** [ip.To4()]: the 4-byte form, or [nil] when [ip] is not an IPv4
    address.  For a 16-byte input the result is the sub-slice
    [ip[12:16]]. *)
Definition To4 (ip : IP) : IP :=
  if (len ip =? IPv4len)%nat then ip
  else if (len ip =? IPv6len)%nat
          && isZeros (take 10 (bytes ip))
          && (bytes ip !!! 10%nat =? 255)
          && (bytes ip !!! 11%nat =? 255)
  then Some (drop 12 (bytes ip))
  else None.

(** [ip.To16()]: the 16-byte form, or [nil] when [ip] has neither
    length. *)
Definition To16 (ip : IP) : IP :=
  if (len ip =? IPv4len)%nat then
    IPv4 (bytes ip !!! 0%nat) (bytes ip !!! 1%nat)
         (bytes ip !!! 2%nat) (bytes ip !!! 3%nat)
  else if (len ip =? IPv6len)%nat then ip
  else None.

(** [ip.Mask(mask)]. *)
Definition Mask (ip : IP) (mask : IPMask) : IP :=
  let mask :=
    if (len mask =? IPv6len)%nat && (len ip =? IPv4len)%nat
       && allFF (take 12 (bytes mask))
    then Some (drop 12 (bytes mask)) else mask in
  let ip :=
    if (len mask =? IPv4len)%nat && (len ip =? IPv6len)%nat
       && bytes_eqb (take 12 (bytes ip)) v4InV6Prefix
    then Some (drop 12 (bytes ip)) else ip in
  let n := len ip in
  if negb (n =? len mask)%nat then None
  else Some (zip_with Z.land (bytes ip) (bytes mask)).

(** The loop of [CIDRMask]: [l] bytes, [n] one-bits still to place. *)
Fixpoint CIDRMask_fill (l : nat) (n : Z) : list Z :=
  match l with
  | O => []
  | S l' =>
      if 8 <=? n then 255 :: CIDRMask_fill l' (n - 8)
      else byte_not (Z.shiftr 255 n) :: CIDRMask_fill l' 0
  end.

(** [CIDRMask(ones, bits)]. *)
Definition CIDRMask (ones bits : Z) : IPMask :=
  if negb (bits =? 8 * Z.of_nat IPv4len) && negb (bits =? 8 * Z.of_nat IPv6len)
  then None
  else if (ones <? 0) || (bits <? ones) then None
  else Some (CIDRMask_fill (Z.to_nat (bits / 8)) ones).

(** The inner loop of [simpleMaskLength],
    [for v&0x80 != 0 { n++; v <<= 1 }], run for at most [fuel]
    iterations. *)
Fixpoint leading_ones (fuel : nat) (n v : Z) : Z * Z :=
  match fuel with
  | O => (n, v)
  | S fuel' =>
      if Z.land v 128 =? 0 then (n, v)
      else leading_ones fuel' (n + 1) (byte_shl1 v)
  end.

(** [simpleMaskLength], with the count [n] so far as an argument. *)
Fixpoint simpleMaskLength_from (n : Z) (mask : list Z) : Z :=
  match mask with
  | [] => n
  | v :: rest =>
      if v =? 255 then simpleMaskLength_from (n + 8) rest
      else
        let '(n', v') := leading_ones 8 n v in
        if negb (v' =? 0) then -1
        else if forallb (fun b => b =? 0) rest then n' else -1
  end.

Definition simpleMaskLength (mask : IPMask) : Z :=
  simpleMaskLength_from 0 (bytes mask).

(** [m.Size()]. *)
Definition Size (m : IPMask) : Z * Z :=
  let ones := simpleMaskLength m in
  let bits := Z.of_nat (len m) * 8 in
  if ones =? -1 then (0, 0) else (ones, bits).

(** The package variables [IPv4zero] and [IPv6zero].  They are slices,
    so a function that writes through one of them changes what every
    later reader sees. *)
Record Globals : Type := mkGlobals { IPv4zero : list Z; IPv6zero : list Z }.

Definition Globals_init : Globals :=
  {| IPv4zero := bytes (IPv4 0 0 0 0); IPv6zero := repeat 0 16 |}.

End net.

(** ** The functions of Go's [math/rand] and [fmt] that the file calls *)

Module rand.

Definition error : Type := string.

(** The process-wide generator behind the top-level functions of
    [math/rand], as an interface: [Seed] puts the generator in a state
    fixed by the seed, [Intn_draw n] draws from [[0, n)] for a positive
    [n], and [Read k] fills a buffer of [k] bytes. *)
Class Source (S : Type) : Type := {
  Seed : Z -> S -> S;
  Intn_draw : Z -> S -> Z * S;
  Read : nat -> S -> (list Z * option error) * S;
  Seed_resets : forall seed s s', Seed seed s = Seed seed s';
  Intn_draw_range : forall n s, 0 < n -> 0 <= fst (Intn_draw n s) < n;
  Read_fills : forall k s,
    length (fst (fst (Read k s))) = k /\ Forall byte_ok (fst (fst (Read k s)))
}.

(** [rand.Intn(n)], which panics when [n <= 0]. *)
Definition Intn {S} `{Source S} (n : Z) (s : S) : outcome Z * S :=
  if n <=? 0 then (Panicked InvalidArgument, s)
  else let '(r, s') := Intn_draw n s in (Returned r, s').

(** A small linear congruential generator, an instance of the
    interface to run the code on. *)
Definition lcg_next (s : Z) : Z := (s * 1103515245 + 12345) mod 2147483648.

Fixpoint lcg_bytes (k : nat) (s : Z) : list Z * Z :=
  match k with
  | O => ([], s)
  | S k' =>
      let s1 := lcg_next s in
      let '(l, s2) := lcg_bytes k' s1 in
      ((s1 / 65536) mod 256 :: l, s2)
  end.

End rand.

Module fmt.

(** A lowercase hexadecimal digit. *)
Definition hex_digit (d : Z) : ascii :=
  if d <? 10 then ascii_of_N (Z.to_N (48 + d)) else ascii_of_N (Z.to_N (87 + d)).

(** The verb [%02x] applied to a byte: two lowercase hexadecimal
    digits, the first one [0] for a value below 16. *)
Definition Sprintf_02x (b : Z) : string :=
  String (hex_digit (b / 16)) (String (hex_digit (b mod 16)) EmptyString).

End fmt.

(** ** libvirt/utils_net.go *)

Module libvirt.
Import net.

Section Random.
Context {S : Type} `{rand.Source S}.

(** [randomMACAddress], given the clock reading [now] of
    [time.Now().UnixNano()] and the state of the shared generator. *)
Definition randomMACAddress (now : Z) (s : S) : (string * option rand.error) * S :=
  let s := rand.Seed now s in
  let '((buf, err), s) := rand.Read 3 s in
  match err with
  | Some e => ((EmptyString, Some e), s)
  | None =>
      let buf := <[0%nat := Z.land (Z.lor (buf !!! 0%nat) 2) 254]> buf in
      let buf := <[0%nat := Z.lor (buf !!! 0%nat) 2]> buf in
      let buf := if buf !!! 0%nat =? 254 then <[0%nat := 238]> buf else buf in
      ((String.append "52:54:00:"
         (String.append (fmt.Sprintf_02x (buf !!! 0%nat))
         (String.append ":"
         (String.append (fmt.Sprintf_02x (buf !!! 1%nat))
         (String.append ":"
                        (fmt.Sprintf_02x (buf !!! 2%nat)))))), None), s)
  end.

(** [randomPort]. *)
Definition randomPort (now : Z) (s : S) : outcome Z * S :=
  let minPort := 1024 in
  let maxPort := 65535 in
  let s := rand.Seed now s in
  match rand.Intn (maxPort - minPort) s with
  | (Returned r, s) => (Returned (r + minPort), s)
  | (Panicked p, s) => (Panicked p, s)
  end.

End Random.

(** [getNetMaskWithMax16Bits]. *)
Definition getNetMaskWithMax16Bits (m : IPMask) : IPMask :=
  let '(ones, bits) := Size m in
  if 16 <? bits - ones then
    if bits =? 128 then CIDRMask (128 - 16) 128
    else CIDRMask (32 - 16) 32
  else m.

(** Which package variable [lastIP] is a view of. *)
Inductive zero_var : Type := Var_IPv4zero | Var_IPv6zero.

(** [net.IPv4zero.To4()] and [net.IPv6zero.To16()]. *)
Definition view (r : zero_var) (g : Globals) : IP :=
  match r with
  | Var_IPv4zero => To4 (Some (IPv4zero g))
  | Var_IPv6zero => To16 (Some (IPv6zero g))
  end.

(** The package variables once the view holds [l]: [To4] returns its
    argument or the sub-slice [[12:16]] of it, and [To16] returns its
    argument when that has 16 bytes, so writes through the result reach
    the variable; the other results are fresh or [nil]. *)
Definition write_back (r : zero_var) (l : list Z) (g : Globals) : Globals :=
  match r with
  | Var_IPv4zero =>
      if (length (IPv4zero g) =? IPv4len)%nat
      then {| IPv4zero := l; IPv6zero := IPv6zero g |}
      else match To4 (Some (IPv4zero g)) with
           | Some _ => {| IPv4zero := take 12 (IPv4zero g) ++ l;
                          IPv6zero := IPv6zero g |}
           | None => g
           end
  | Var_IPv6zero =>
      if (length (IPv6zero g) =? IPv6len)%nat
      then {| IPv4zero := IPv4zero g; IPv6zero := l |}
      else g
  end.

(** The loop [for i := 0; i < len(lastIP); i++] of [networkRange], with
    [steps] iterations left from index [i]; an index out of range stops
    it, with the bytes written so far in place.  Each iteration reads
    index [i] of [netIP] and [intMask] before it writes index [i] of
    [lastIP] and no later iteration reads that index again, so an
    argument that shares its bytes with [lastIP] gives the same
    result. *)
Fixpoint networkRange_loop (steps i : nat) (netIP : IP) (intMask : IPMask)
         (lastIP : list Z) : outcome unit * list Z :=
  match steps with
  | O => (Returned tt, lastIP)
  | S steps' =>
      match index netIP i, index intMask i with
      | Some a, Some m =>
          networkRange_loop steps' (S i) netIP intMask
            (<[i := Z.lor a (byte_not m)]> lastIP)
      | _, _ => (Panicked IndexOutOfRange, lastIP)
      end
  end.

(** [networkRange], given the package variables of [net] and returning
    them as the call leaves them. *)
Definition networkRange (network : IPNet) (g : Globals)
  : outcome (IP * IP) * Globals :=
  let '(netIP, r) :=
    match To4 (IPNet_IP network) with
    | Some _ as netIP => (netIP, Var_IPv4zero)
    | None => (To16 (IPNet_IP network), Var_IPv6zero)
    end in
  let firstIP := Mask netIP (IPNet_Mask network) in
  let intMask := getNetMaskWithMax16Bits (IPNet_Mask network) in
  match view r g with
  | None => (Returned (firstIP, None), g)
  | Some lastIP =>
      match networkRange_loop (length lastIP) 0 netIP intMask lastIP with
      | (Returned _, lastIP') => (Returned (firstIP, Some lastIP'), write_back r lastIP' g)
      | (Panicked p, lastIP') => (Panicked p, write_back r lastIP' g)
      end
  end.

End libvirt.

Import net libvirt.

(** ** The notions the properties are stated with *)

Module Spec.

(** The bits of a mask, most significant bit of the first byte
    first. *)
Definition mask_bits (m : list Z) : list bool := flat_map byte_bits m.

(** A run of one-bits followed by zero-bits only. *)
Fixpoint ones_then_zeros (l : list bool) : bool :=
  match l with
  | [] => true
  | true :: l' => ones_then_zeros l'
  | false :: l' => forallb negb l'
  end.

(** The number of leading one-bits. *)
Fixpoint count_ones (l : list bool) : Z :=
  match l with
  | true :: l' => 1 + count_ones l'
  | _ => 0
  end.

(** A prefix mask of an IPv4 or IPv6 address: 4 or 16 bytes, one-bits
    then zero-bits. *)
Definition prefix_mask (m : IPMask) : bool :=
  ((len m =? IPv4len)%nat || (len m =? IPv6len)%nat)
  && forallb byte_okb (bytes m)
  && ones_then_zeros (mask_bits (bytes m)).

Definition total_bits (m : IPMask) : Z := Z.of_nat (length (mask_bits (bytes m))).

Definition prefix_bits (m : IPMask) : Z := count_ones (mask_bits (bytes m)).

Definition host_bits (m : IPMask) : Z := total_bits m - prefix_bits m.

(** The address family [networkRange] works in: IPv4 when [To4]
    succeeds, IPv6 for any other 16-byte address. *)
Inductive family : Type := FamilyIPv4 | FamilyIPv6.

Definition family_of (ip : IP) : option family :=
  match To4 ip with
  | Some _ => Some FamilyIPv4
  | None => if (len ip =? IPv6len)%nat then Some FamilyIPv6 else None
  end.

Definition width (f : family) : nat :=
  match f with FamilyIPv4 => IPv4len | FamilyIPv6 => IPv6len end.

(** The address in the canonical width of its family. *)
Definition canonical_address (ip : IP) : list Z :=
  match To4 ip with
  | Some a => a
  | None => bytes (To16 ip)
  end.

(** A network whose mask has the width of the family of its
    address. *)
Definition valid_network (n : IPNet) : bool :=
  forallb byte_okb (bytes (IPNet_IP n))
  && forallb byte_okb (bytes (IPNet_Mask n))
  && match family_of (IPNet_IP n) with
     | Some f => (len (IPNet_Mask n) =? width f)%nat
     | None => false
     end.

(** The package variables as [net] declares them and as
    [networkRange] leaves them: [IPv4zero] an IPv4 address, [IPv6zero]
    of 16 bytes. *)
Definition globals_ok (g : Globals) : Prop :=
  len (view Var_IPv4zero g) = IPv4len /\ len (view Var_IPv6zero g) = IPv6len.

(** Unsigned lexicographic comparison of byte strings, as
    [bytes.Compare] does it. *)
Fixpoint bytes_compare (a b : list Z) : comparison :=
  match a, b with
  | [], [] => Eq
  | [], _ :: _ => Lt
  | _ :: _, [] => Gt
  | x :: a', y :: b' =>
      match x ?= y with
      | Eq => bytes_compare a' b'
      | c => c
      end
  end.

Definition bytes_le (a b : list Z) : Prop := bytes_compare a b <> Gt.

(** Patterns of fixed length: a literal character or the class
    [[0-9a-f]] at each position, matched against the whole string. *)
Inductive char_class : Type := Lit (c : ascii) | LowerHex.

Definition class_matches (k : char_class) (c : ascii) : bool :=
  match k with
  | Lit d => Ascii.eqb c d
  | LowerHex =>
      let n := N_of_ascii c in
      ((48 <=? n) && (n <=? 57) || (97 <=? n) && (n <=? 102))%N
  end.

Fixpoint matches (p : list char_class) (s : string) : bool :=
  match p, s with
  | [], EmptyString => true
  | k :: p', String c s' => class_matches k c && matches p' s'
  | _, _ => false
  end.

Definition hex2 : list char_class := [LowerHex; LowerHex].

(** [^52:54:00:[0-9a-f]{2}:[0-9a-f]{2}:[0-9a-f]{2}$] *)
Definition mac_regex : list char_class :=
  map Lit (list_ascii_of_string "52:54:00:")
  ++ hex2 ++ [Lit ":"%char] ++ hex2 ++ [Lit ":"%char] ++ hex2.

Definition hex_value (c : ascii) : option Z :=
  let n := Z.of_N (N_of_ascii c) in
  if (48 <=? n) && (n <=? 57) then Some (n - 48)
  else if (97 <=? n) && (n <=? 102) then Some (n - 87)
  else None.

(** Octet number [k], from 0, of a colon-separated address. *)
Definition octet (s : string) (k : nat) : option Z :=
  match String.get (3 * k) s, String.get (3 * k + 1) s with
  | Some h, Some l =>
      match hex_value h, hex_value l with
      | Some a, Some b => Some (16 * a + b)
      | _, _ => None
      end
  | _, _ => None
  end.


(** What the loop stores at each index. *)
Definition last_bytes (netIP intMask : list Z) : list Z :=
  zip_with (fun a m => Z.lor a (byte_not m)) netIP intMask.

(** The test of [To4] on a 16-byte slice. *)
Definition is_v4_mapped (l : list Z) : bool :=
  isZeros (take 10 l) && (l !!! 10%nat =? 255) && (l !!! 11%nat =? 255).

(** The check that [CIDRMask] with [k] one-bits gives a prefix mask of
    [k] one-bits and [bits] bits. *)
Definition CIDRMask_checks (bits : Z) (k : nat) : bool :=
  let m := CIDRMask (Z.of_nat k) bits in
  prefix_mask m && (prefix_bits m =? Z.of_nat k) && (total_bits m =? bits).

(** The string that [randomMACAddress] formats from three bytes. *)
Definition mac_string (b0 b1 b2 : Z) : string :=
  String.append "52:54:00:"
    (String.append (fmt.Sprintf_02x b0)
    (String.append ":"
    (String.append (fmt.Sprintf_02x b1)
    (String.append ":" (fmt.Sprintf_02x b2))))).

(** Every one-bit of the mask [m] is a one-bit of the mask [c], byte by
    byte. *)
Definition mask_covers (c m : list Z) : bool :=
  (length c =? length m)%nat
  && forallb (fun p => Z.land (snd p) (fst p) =? snd p) (zip c m).

(** The package variable that [networkRange] takes [lastIP] from, by
    family. *)
Definition family_var (f : family) : zero_var :=
  match f with FamilyIPv4 => Var_IPv4zero | FamilyIPv6 => Var_IPv6zero end.

(** The check that the capped mask [c] covers [CIDRMask k bits]. *)
Definition covers_checks (c : IPMask) (bits : Z) (k : nat) : bool :=
  mask_covers (bytes c) (bytes (CIDRMask (Z.of_nat k) bits)).

(** The number that the bytes of an address spell, first byte most
    significant. *)
Fixpoint ip_value (l : list Z) : Z :=
  match l with
  | [] => 0
  | x :: l' => x * 256 ^ Z.of_nat (length l') + ip_value l'
  end.

(** The check that the host bits of the capped [CIDRMask k bits] spell
    [2 ^ min (bits - k) 16 - 1]. *)
Definition host_count_checks (bits : Z) (k : nat) : bool :=
  let m := CIDRMask (Z.of_nat k) bits in
  ip_value (map byte_not (bytes (getNetMaskWithMax16Bits m)))
  =? 2 ^ Z.min (bits - Z.of_nat k) 16 - 1.

End Spec.
Import Spec.

(** The linear congruential generator as a [rand.Source]. *)
#[export] Instance lcg_source : rand.Source Z.
Proof.
  refine {| rand.Seed := fun seed _ => seed mod 2147483648;
            rand.Intn_draw := fun n s => (rand.lcg_next s mod n, rand.lcg_next s);
            rand.Read := fun k s => ((fst (rand.lcg_bytes k s), None), snd (rand.lcg_bytes k s)) |}.
  - reflexivity.
  - intros n s Hn. simpl. apply Z.mod_pos_bound. exact Hn.
  - intros k. simpl. induction k as [|k IH]; intros s; simpl.
    + split; [reflexivity | constructor].
    + destruct (rand.lcg_bytes k (rand.lcg_next s)) as [l s2] eqn:E.
      specialize (IH (rand.lcg_next s)). rewrite E in IH. simpl in *.
      destruct IH as [IH1 IH2]. split; [now rewrite IH1 |].
      constructor; [|exact IH2].
      unfold byte_ok. apply Z.mod_pos_bound. lia.
Defined.

(** * Properties *)

(** ** The code on sample inputs *)

(** 10.0.0.0/8: the mask is capped to /16. *)
Example networkRange_10_8 :
  fst (networkRange (mkIPNet (Some [10; 0; 0; 0]) (CIDRMask 8 32)) Globals_init)
  = Returned (Some [10; 0; 0; 0], Some [10; 0; 255; 255]).
Proof. reflexivity. Qed.

(** 10.0.0.0/20: 12 host bits, the mask is kept. *)
Example networkRange_10_20 :
  getNetMaskWithMax16Bits (CIDRMask 20 32) = CIDRMask 20 32
  /\ fst (networkRange (mkIPNet (Some [10; 0; 0; 0]) (CIDRMask 20 32)) Globals_init)
     = Returned (Some [10; 0; 0; 0], Some [10; 0; 15; 255]).
Proof. split; reflexivity. Qed.

(** 2001:db8::/32: the mask is capped to /112. *)
Example networkRange_2001_db8_32 :
  getNetMaskWithMax16Bits (CIDRMask 32 128) = CIDRMask 112 128
  /\ fst (networkRange
            (mkIPNet (Some [32; 1; 13; 184; 0; 0; 0; 0; 0; 0; 0; 0; 0; 0; 0; 0])
                     (CIDRMask 32 128)) Globals_init)
     = Returned (Some [32; 1; 13; 184; 0; 0; 0; 0; 0; 0; 0; 0; 0; 0; 0; 0],
                 Some [32; 1; 13; 184; 0; 0; 0; 0; 0; 0; 0; 0; 0; 0; 255; 255]).
Proof. split; reflexivity. Qed.

(** An IPv4 address in its 16-byte form is handled as the 4-byte one. *)
Example networkRange_IPv4_in_16_bytes :
  fst (networkRange (mkIPNet (IPv4 192 168 1 77) (CIDRMask 24 32)) Globals_init)
  = Returned (Some [192; 168; 1; 0], Some [192; 168; 1; 255]).
Proof. reflexivity. Qed.

(** An IPv4 address in its 16-byte form with a 16-byte mask, /120: the
    first address is masked with the last four bytes of the mask, the
    last one is computed from the first four. *)
Example networkRange_IPv4_in_16_bytes_long_mask :
  valid_network (mkIPNet (IPv4 10 1 2 3) (CIDRMask 120 128)) = false
  /\ fst (networkRange (mkIPNet (IPv4 10 1 2 3) (CIDRMask 120 128)) Globals_init)
     = Returned (Some [10; 1; 2; 0], Some [10; 1; 2; 3]).
Proof. split; reflexivity. Qed.

(** A 16-byte address with a 4-byte mask runs out of mask bytes. *)
Example networkRange_short_mask :
  fst (networkRange
         (mkIPNet (Some [32; 1; 13; 184; 0; 0; 0; 0; 0; 0; 0; 0; 0; 0; 0; 0])
                  (CIDRMask 8 32)) Globals_init)
  = Panicked IndexOutOfRange.
Proof. reflexivity. Qed.

(** The two generators on the linear congruential source. *)
Example randomPort_lcg : fst (randomPort 12345 0) = Returned 13231.
Proof. reflexivity. Qed.

Example randomMACAddress_lcg :
  fst (randomMACAddress 12345 0) = ("52:54:00:de:04:65"%string, None).
Proof. reflexivity. Qed.

(** The reserved first byte: 0xfc to 0xff all become 0xee. *)
Example mac_first_byte_reserved :
  map (fun b => let x := Z.lor (Z.land (Z.lor b 2) 254) 2 in
                if x =? 254 then 238 else x) [252; 253; 254; 255]
  = [238; 238; 238; 238].
Proof. reflexivity. Qed.

(** ** Bytes, by enumeration *)

Lemma byte_okb_spec (b : Z) : byte_okb b = true <-> byte_ok b.
Proof. unfold byte_okb, byte_ok. rewrite andb_true_iff. lia. Qed.

Lemma forallb_byte_okb (l : list Z) :
  forallb byte_okb l = true <-> Forall byte_ok l.
Proof.
  induction l as [|b l IH]; simpl.
  - split; [constructor | reflexivity].
  - rewrite andb_true_iff, IH, byte_okb_spec, Forall_cons. reflexivity.
Qed.

Lemma in_all_bytes (b : Z) : byte_ok b -> In b all_bytes.
Proof.
  intros Hb. unfold all_bytes. apply in_map_iff.
  exists (Z.to_nat b). split; [unfold byte_ok in Hb; lia |].
  apply in_seq. unfold byte_ok in Hb. lia.
Qed.

(** A boolean property checked on the 256 byte values holds of every
    byte. *)
Lemma byte_cases (P : Z -> bool) :
  forallb P all_bytes = true -> forall b, byte_ok b -> P b = true.
Proof.
  intros HP b Hb. rewrite forallb_forall in HP. apply HP, in_all_bytes, Hb.
Qed.

Ltac by_byte_cases P Hb := apply (byte_cases P); [vm_compute; reflexivity | exact Hb].

Lemma byte_not_spec (b : Z) : byte_ok b -> byte_not b = 255 - b.
Proof.
  intros Hb. apply Z.eqb_eq.
  by_byte_cases (fun b => byte_not b =? 255 - b) Hb.
Qed.

(** The same for a property of two bytes. *)
Lemma byte_cases2 (P : Z -> Z -> bool) :
  forallb (fun a => forallb (P a) all_bytes) all_bytes = true ->
  forall a b, byte_ok a -> byte_ok b -> P a b = true.
Proof.
  intros HP a b Ha Hb.
  pose proof (byte_cases _ HP a Ha) as Hrow. simpl in Hrow.
  exact (byte_cases _ Hrow b Hb).
Qed.

Lemma byte_land_bounds (a m : Z) :
  byte_ok a -> byte_ok m -> 0 <= Z.land a m <= a.
Proof.
  intros Ha Hm.
  pose proof (byte_cases2 (fun a m => (0 <=? Z.land a m) && (Z.land a m <=? a))) as H.
  specialize (H ltac:(vm_compute; reflexivity) a m Ha Hm). simpl in H.
  apply andb_true_iff in H. lia.
Qed.

Lemma byte_lor_not_bounds (a c : Z) :
  byte_ok a -> byte_ok c -> a <= Z.lor a (byte_not c) < 256.
Proof.
  intros Ha Hc.
  pose proof (byte_cases2
    (fun a c => (a <=? Z.lor a (byte_not c)) && (Z.lor a (byte_not c) <? 256))) as H.
  specialize (H ltac:(vm_compute; reflexivity) a c Ha Hc). simpl in H.
  apply andb_true_iff in H. lia.
Qed.

(** ** The loop of [networkRange] *)

Lemma last_bytes_length (a m : list Z) :
  length (last_bytes a m) = Nat.min (length a) (length m).
Proof. unfold last_bytes. apply length_zip_with. Qed.

Lemma last_bytes_lookup (a m : list Z) (i : nat) (x y : Z) :
  a !! i = Some x -> m !! i = Some y ->
  last_bytes a m !! i = Some (Z.lor x (byte_not y)).
Proof.
  intros Ha Hm. unfold last_bytes. rewrite lookup_zip_with, Ha, Hm. reflexivity.
Qed.

(** With both slices long enough the loop runs to its end, and has then
    overwritten every byte from index [i] on. *)
Lemma networkRange_loop_returns (steps : nat) :
  forall (i : nat) (netIP intMask : slice) (lastIP : list Z),
    (i + steps)%nat = length lastIP ->
    (length lastIP <= len netIP)%nat ->
    (length lastIP <= len intMask)%nat ->
    networkRange_loop steps i netIP intMask lastIP
    = (Returned tt,
       take i lastIP
       ++ drop i (take (length lastIP) (last_bytes (bytes netIP) (bytes intMask)))).
Proof.
  induction steps as [|steps IH]; intros i netIP intMask lastIP Hlen Ha Hm; simpl.
  - rewrite Nat.add_0_r in Hlen. subst i.
    rewrite firstn_all, drop_ge, app_nil_r; [reflexivity |].
    rewrite length_take. lia.
  - unfold index, len in *.
    destruct (lookup_lt_is_Some_2 (bytes netIP) i ltac:(lia)) as [x Hx].
    destruct (lookup_lt_is_Some_2 (bytes intMask) i ltac:(lia)) as [y Hy].
    rewrite Hx, Hy.
    rewrite IH; unfold len; rewrite ?length_insert; try lia.
    f_equal.
    set (T := take (length lastIP) (last_bytes (bytes netIP) (bytes intMask))).
    assert (HT : T !! i = Some (Z.lor x (byte_not y))).
    { unfold T. rewrite lookup_take_lt by lia. now apply last_bytes_lookup. }
    rewrite (drop_S T _ i HT).
    rewrite (take_S_r _ i (Z.lor x (byte_not y))).
    + rewrite take_insert_ge by lia. rewrite <- app_assoc. reflexivity.
    + apply list_lookup_insert_eq. lia.
Qed.

(** With a slice too short the loop stops with an index out of
    range. *)
Lemma networkRange_loop_panics (steps : nat) :
  forall (i : nat) (netIP intMask : slice) (lastIP : list Z),
    (i <= Nat.min (len netIP) (len intMask))%nat ->
    (Nat.min (len netIP) (len intMask) < i + steps)%nat ->
    fst (networkRange_loop steps i netIP intMask lastIP) = Panicked IndexOutOfRange.
Proof.
  induction steps as [|steps IH]; intros i netIP intMask lastIP Hi Hshort; simpl.
  - lia.
  - unfold index.
    destruct (bytes netIP !! i) as [x|] eqn:Hx; [|reflexivity].
    destruct (bytes intMask !! i) as [y|] eqn:Hy; [|reflexivity].
    apply lookup_lt_Some in Hx. apply lookup_lt_Some in Hy.
    apply IH; unfold len in *; lia.
Qed.

(** ** [getNetMaskWithMax16Bits] *)

Lemma Size_cases (m : IPMask) :
  (simpleMaskLength m = -1 /\ Size m = (0, 0))
  \/ (simpleMaskLength m <> -1
      /\ Size m = (simpleMaskLength m, Z.of_nat (len m) * 8)).
Proof.
  unfold Size. destruct (simpleMaskLength m =? -1) eqn:E.
  - left. apply Z.eqb_eq in E. auto.
  - right. apply Z.eqb_neq in E. auto.
Qed.

(** The three results of [getNetMaskWithMax16Bits]. *)
Lemma getNetMaskWithMax16Bits_cases (m : IPMask) :
  (getNetMaskWithMax16Bits m = m
   /\ snd (Size m) - fst (Size m) <= 16)
  \/ (getNetMaskWithMax16Bits m = CIDRMask 112 128
      /\ 16 < snd (Size m) - fst (Size m) /\ len m = 16%nat)
  \/ (getNetMaskWithMax16Bits m = CIDRMask 16 32
      /\ 16 < snd (Size m) - fst (Size m) /\ len m <> 16%nat).
Proof.
  unfold getNetMaskWithMax16Bits.
  destruct (Size_cases m) as [[_ ->]|[Hne ->]]; simpl.
  - left. split; [reflexivity | lia].
  - destruct (16 <? Z.of_nat (len m) * 8 - simpleMaskLength m) eqn:E.
    + apply Z.ltb_lt in E.
      destruct (Z.of_nat (len m) * 8 =? 128) eqn:E128.
      * apply Z.eqb_eq in E128. right. left. repeat split; [exact E | lia].
      * apply Z.eqb_neq in E128. right. right. repeat split; [exact E | lia].
    + apply Z.ltb_ge in E. left. split; [reflexivity | exact E].
Qed.

(** Capping keeps the width of a 4-byte and of a 16-byte mask. *)
Lemma getNetMaskWithMax16Bits_len (m : IPMask) :
  len m = IPv4len \/ len m = IPv6len ->
  len (getNetMaskWithMax16Bits m) = len m.
Proof.
  intros Hw.
  destruct (getNetMaskWithMax16Bits_cases m)
    as [[-> _]|[[-> [_ H16]]|[-> [Hhost Hn16]]]].
  - reflexivity.
  - rewrite H16. reflexivity.
  - destruct Hw as [H4|H16']; [rewrite H4; reflexivity | contradiction].
Qed.

(** Claim C5.  Capping is idempotent: for every mask [m], a nil slice,
    a slice of any length and of any content included, capping the
    capped mask gives the capped mask again. *)
Theorem getNetMaskWithMax16Bits_idempotent (m : IPMask) :
  getNetMaskWithMax16Bits (getNetMaskWithMax16Bits m) = getNetMaskWithMax16Bits m.
Proof.
  destruct (getNetMaskWithMax16Bits_cases m)
    as [[Hm _]|[[Hm _]|[Hm _]]]; rewrite Hm.
  - exact Hm.
  - reflexivity.
  - reflexivity.
Qed.

(** ** [networkRange] on a valid network *)

Lemma To4_length (ip : IP) (a : list Z) : To4 ip = Some a -> length a = IPv4len.
Proof.
  unfold To4. destruct (len ip =? IPv4len)%nat eqn:E4.
  - intros ->. apply Nat.eqb_eq in E4. exact E4.
  - destruct (_ && _) eqn:E; [|discriminate].
    intros [= <-]. repeat (apply andb_true_iff in E; destruct E as [E ?]).
    apply Nat.eqb_eq in E. unfold len in E. rewrite length_drop, E. reflexivity.
Qed.

Lemma canonical_address_length (ip : IP) (f : family) :
  family_of ip = Some f -> length (canonical_address ip) = width f.
Proof.
  unfold family_of, canonical_address.
  destruct (To4 ip) as [a|] eqn:E4.
  - intros [= <-]. exact (To4_length _ _ E4).
  - destruct (len ip =? IPv6len)%nat eqn:E16; [|discriminate].
    intros [= <-]. unfold To16.
    apply Nat.eqb_eq in E16. rewrite E16. simpl. exact E16.
Qed.

Lemma valid_network_inv (n : IPNet) :
  valid_network n = true ->
  Forall byte_ok (bytes (IPNet_IP n))
  /\ Forall byte_ok (bytes (IPNet_Mask n))
  /\ exists f, family_of (IPNet_IP n) = Some f /\ len (IPNet_Mask n) = width f.
Proof.
  unfold valid_network. intros H.
  apply andb_true_iff in H. destruct H as [H Hf].
  apply andb_true_iff in H. destruct H as [Hip Hm].
  apply forallb_byte_okb in Hip. apply forallb_byte_okb in Hm.
  destruct (family_of (IPNet_IP n)) as [f|]; [|discriminate].
  apply Nat.eqb_eq in Hf. eauto.
Qed.

(** [Mask] on an address and a mask of one width is the byte-wise
    AND. *)
Lemma Mask_same_width (ip : IP) (mask : IPMask) :
  len ip = len mask ->
  Mask ip mask = Some (zip_with Z.land (bytes ip) (bytes mask)).
Proof.
  intros Hlen. unfold Mask. rewrite <- Hlen.
  destruct (len ip =? IPv6len)%nat eqn:E16, (len ip =? IPv4len)%nat eqn:E4;
    simpl; try rewrite <- Hlen; try rewrite E16; try rewrite E4; simpl;
    try rewrite Nat.eqb_refl; simpl; try reflexivity.
  apply Nat.eqb_eq in E16. apply Nat.eqb_eq in E4. rewrite E4 in E16. discriminate.
Qed.

(** On a valid network [networkRange] returns, with the masked address
    first and the address with the host bits of the capped mask set
    last. *)
Lemma networkRange_valid (n : IPNet) (g : Globals) :
  valid_network n = true -> globals_ok g ->
  exists g',
    networkRange n g
    = (Returned
         (Some (zip_with Z.land (canonical_address (IPNet_IP n)) (bytes (IPNet_Mask n))),
          Some (last_bytes (canonical_address (IPNet_IP n))
                           (bytes (getNetMaskWithMax16Bits (IPNet_Mask n))))),
       g').
Proof.
  intros Hv [Hg4 Hg6].
  destruct (valid_network_inv n Hv) as (_ & _ & f & Hf & Hw).
  pose proof (canonical_address_length _ _ Hf) as Hca.
  assert (Hcap : len (getNetMaskWithMax16Bits (IPNet_Mask n)) = width f).
  { rewrite getNetMaskWithMax16Bits_len; [exact Hw |].
    rewrite Hw. destruct f; auto. }
  unfold networkRange, family_of, canonical_address in *.
  destruct (To4 (IPNet_IP n)) as [a|] eqn:E4.
  - injection Hf as <-. simpl in Hw, Hca, Hcap.
    destruct (view Var_IPv4zero g) as [l|] eqn:Ev; [|discriminate Hg4].
    unfold len in Hg4. simpl in Hg4.
    rewrite networkRange_loop_returns; unfold len in *; simpl; try lia.
    eexists. f_equal. f_equal. f_equal.
    + apply Mask_same_width. unfold len in *. simpl. lia.
    + f_equal. rewrite Hg4. apply firstn_all2.
      rewrite last_bytes_length. unfold len in *. lia.
  - destruct (len (IPNet_IP n) =? IPv6len)%nat eqn:E16; [|discriminate].
    injection Hf as <-. apply Nat.eqb_eq in E16. simpl in Hw, Hcap.
    assert (E : To16 (IPNet_IP n) = IPNet_IP n).
    { unfold To16. rewrite E16. reflexivity. }
    rewrite E in *.
    destruct (view Var_IPv6zero g) as [l|] eqn:Ev; [|discriminate Hg6].
    unfold len in Hg6. simpl in Hg6.
    rewrite networkRange_loop_returns; unfold len in *; simpl; try lia.
    eexists. f_equal. f_equal. f_equal.
    + apply Mask_same_width. unfold len in *. lia.
    + f_equal. rewrite Hg6. apply firstn_all2.
      rewrite last_bytes_length. lia.
Qed.

(** ** [simpleMaskLength] and the bits of a mask *)

Lemma byte_bits_zero_bit (v : Z) :
  byte_ok v -> v <> 255 -> In false (byte_bits v).
Proof.
  intros Hv Hne.
  assert (H : (v =? 255) || existsb negb (byte_bits v) = true).
  { by_byte_cases (fun v => (v =? 255) || existsb negb (byte_bits v)) Hv. }
  apply orb_true_iff in H. destruct H as [H|H].
  - apply Z.eqb_eq in H. contradiction.
  - apply existsb_exists in H. destruct H as ([|] & Hin & Hx); [discriminate | exact Hin].
Qed.

Lemma byte_bits_all_zero (b : Z) :
  byte_ok b -> forallb negb (byte_bits b) = (b =? 0).
Proof.
  intros Hb. apply eqb_prop.
  by_byte_cases (fun b => Bool.eqb (forallb negb (byte_bits b)) (b =? 0)) Hb.
Qed.

(** The count that the inner loop starts from is carried along. *)
Lemma leading_ones_from (fuel : nat) :
  forall n v,
    leading_ones fuel n v
    = (n + fst (leading_ones fuel 0 v), snd (leading_ones fuel 0 v)).
Proof.
  induction fuel as [|fuel IH]; intros n v; simpl.
  - f_equal. lia.
  - destruct (Z.land v 128 =? 0); simpl.
    + f_equal. lia.
    + rewrite (IH (n + 1)), (IH 1). simpl. f_equal. lia.
Qed.

(** Eight iterations are enough for the inner loop to reach its exit
    condition on a byte. *)
Lemma leading_ones_exits (n v : Z) :
  byte_ok v -> Z.land (snd (leading_ones 8 n v)) 128 = 0.
Proof.
  intros Hv. rewrite leading_ones_from. cbn [snd]. apply Z.eqb_eq.
  by_byte_cases (fun v => Z.land (snd (leading_ones 8 0 v)) 128 =? 0) Hv.
Qed.

(** The inner loop counts the leading one-bits of a byte and leaves zero
    exactly when only zero-bits follow them. *)
Lemma leading_ones_bits (v : Z) :
  byte_ok v ->
  fst (leading_ones 8 0 v) = count_ones (byte_bits v)
  /\ (snd (leading_ones 8 0 v) =? 0) = ones_then_zeros (byte_bits v).
Proof.
  intros Hv.
  assert (H : (fst (leading_ones 8 0 v) =? count_ones (byte_bits v))
              && Bool.eqb (snd (leading_ones 8 0 v) =? 0)
                          (ones_then_zeros (byte_bits v)) = true).
  { by_byte_cases (fun v => (fst (leading_ones 8 0 v) =? count_ones (byte_bits v))
              && Bool.eqb (snd (leading_ones 8 0 v) =? 0)
                          (ones_then_zeros (byte_bits v))) Hv. }
  apply andb_true_iff in H. destruct H as [H1 H2].
  apply Z.eqb_eq in H1. apply eqb_prop in H2. auto.
Qed.

Lemma ones_then_zeros_app (l r : list bool) :
  In false l ->
  ones_then_zeros (l ++ r) = ones_then_zeros l && forallb negb r.
Proof.
  induction l as [|[|] l IH]; simpl; intros Hin.
  - contradiction.
  - apply IH. destruct Hin as [Hin|Hin]; [discriminate | exact Hin].
  - apply forallb_app.
Qed.

Lemma count_ones_app (l r : list bool) :
  In false l -> count_ones (l ++ r) = count_ones l.
Proof.
  induction l as [|[|] l IH]; simpl; intros Hin.
  - contradiction.
  - rewrite IH; [reflexivity |].
    destruct Hin as [Hin|Hin]; [discriminate | exact Hin].
  - reflexivity.
Qed.

Lemma count_ones_bounds (l : list bool) :
  0 <= count_ones l <= Z.of_nat (length l).
Proof. induction l as [|[|] l IH]; simpl length; simpl count_ones; lia. Qed.

Lemma count_ones_lt (l : list bool) :
  In false l -> count_ones l < Z.of_nat (length l).
Proof.
  induction l as [|[|] l IH]; simpl length; simpl count_ones; intros Hin.
  - contradiction.
  - destruct Hin as [Hin|Hin]; [discriminate |]. specialize (IH Hin). lia.
  - lia.
Qed.

Lemma mask_bits_cons (v : Z) (m : list Z) :
  mask_bits (v :: m) = byte_bits v ++ mask_bits m.
Proof. reflexivity. Qed.

Lemma mask_bits_length (m : list Z) :
  Z.of_nat (length (mask_bits m)) = Z.of_nat (length m) * 8.
Proof.
  induction m as [|v m IH]; [reflexivity |].
  rewrite mask_bits_cons, length_app. simpl length. lia.
Qed.

Lemma mask_bits_all_zero (m : list Z) :
  Forall byte_ok m ->
  forallb negb (mask_bits m) = forallb (fun b => b =? 0) m.
Proof.
  induction 1 as [|v m Hv Hm IH]; [reflexivity |].
  rewrite mask_bits_cons, forallb_app, IH, byte_bits_all_zero by exact Hv.
  reflexivity.
Qed.

(** [simpleMaskLength] returns the number of leading one-bits of a mask
    of one-bits then zero-bits, and -1 for any other mask. *)
Lemma simpleMaskLength_from_bits (m : list Z) :
  Forall byte_ok m ->
  forall n,
    simpleMaskLength_from n m
    = if ones_then_zeros (mask_bits m) then n + count_ones (mask_bits m) else -1.
Proof.
  induction 1 as [|v m Hv Hm IH]; intros n.
  - simpl. lia.
  - cbn [simpleMaskLength_from]. rewrite mask_bits_cons.
    destruct (v =? 255) eqn:E.
    + apply Z.eqb_eq in E. subst v. rewrite IH.
      change (byte_bits 255) with (repeat true 8). simpl.
      destruct (ones_then_zeros (mask_bits m)); lia.
    + apply Z.eqb_neq in E.
      pose proof (byte_bits_zero_bit v Hv E) as Hin.
      rewrite ones_then_zeros_app, count_ones_app by exact Hin.
      rewrite leading_ones_from.
      destruct (leading_ones_bits v Hv) as [-> ->].
      rewrite mask_bits_all_zero by exact Hm.
      destruct (ones_then_zeros (byte_bits v)); simpl; [|reflexivity].
      destruct (forallb _ m); reflexivity.
Qed.

(** [Size] in terms of the bits of the mask. *)
Lemma Size_bits (m : IPMask) :
  Forall byte_ok (bytes m) ->
  Size m = if ones_then_zeros (mask_bits (bytes m))
           then (prefix_bits m, total_bits m) else (0, 0).
Proof.
  intros Hm. unfold Size, simpleMaskLength, prefix_bits, total_bits.
  rewrite simpleMaskLength_from_bits by exact Hm.
  destruct (ones_then_zeros (mask_bits (bytes m))); [|reflexivity].
  pose proof (count_ones_bounds (mask_bits (bytes m))) as Hc.
  destruct (0 + count_ones (mask_bits (bytes m)) =? -1) eqn:E.
  - apply Z.eqb_eq in E. lia.
  - unfold len. rewrite mask_bits_length. f_equal.
Qed.

Lemma prefix_mask_inv (m : IPMask) :
  prefix_mask m = true ->
  (len m = IPv4len \/ len m = IPv6len)
  /\ Forall byte_ok (bytes m)
  /\ ones_then_zeros (mask_bits (bytes m)) = true.
Proof.
  unfold prefix_mask. intros H.
  apply andb_true_iff in H. destruct H as [H Hotz].
  apply andb_true_iff in H. destruct H as [Hlen Hok].
  apply forallb_byte_okb in Hok. apply orb_true_iff in Hlen.
  rewrite !Nat.eqb_eq in Hlen. auto.
Qed.

(** ** Prefix masks are the masks that [CIDRMask] builds *)

Lemma CIDRMask_prefix_mask (ones bits : Z) :
  bits = 32 \/ bits = 128 -> 0 <= ones <= bits ->
  prefix_mask (CIDRMask ones bits) = true
  /\ prefix_bits (CIDRMask ones bits) = ones
  /\ total_bits (CIDRMask ones bits) = bits.
Proof.
  intros Hbits Hones.
  assert (H : CIDRMask_checks bits (Z.to_nat ones) = true).
  { assert (Hall : forallb (CIDRMask_checks bits) (seq 0 (S (Z.to_nat bits))) = true)
      by (destruct Hbits as [->| ->]; vm_compute; reflexivity).
    rewrite forallb_forall in Hall. apply Hall, in_seq. lia. }
  unfold CIDRMask_checks in H. rewrite Z2Nat.id in H by lia.
  apply andb_true_iff in H. destruct H as [H Ht].
  apply andb_true_iff in H. destruct H as [Hp Ho].
  apply Z.eqb_eq in Ht, Ho. auto.
Qed.

Lemma CIDRMask_fill_zero (l : nat) : CIDRMask_fill l 0 = repeat 0 l.
Proof. induction l as [|l IH]; simpl; [reflexivity | now rewrite IH]. Qed.

Lemma all_zero_repeat (m : list Z) :
  forallb (fun b => b =? 0) m = true -> m = repeat 0 (length m).
Proof.
  induction m as [|v m IH]; simpl; [reflexivity |].
  intros H. apply andb_true_iff in H. destruct H as [Hv Hm].
  apply Z.eqb_eq in Hv. subst v. f_equal. exact (IH Hm).
Qed.

(** A byte of one-bits then zero-bits is the byte that [CIDRMask] writes
    for that many one-bits. *)
Lemma prefix_byte (v : Z) :
  byte_ok v -> ones_then_zeros (byte_bits v) = true ->
  v = byte_not (Z.shiftr 255 (count_ones (byte_bits v))).
Proof.
  intros Hv Hotz.
  pose proof (byte_cases
    (fun v => negb (ones_then_zeros (byte_bits v))
              || (v =? byte_not (Z.shiftr 255 (count_ones (byte_bits v)))))
    ltac:(vm_compute; reflexivity) v Hv) as H.
  cbv beta in H. rewrite Hotz in H. now apply Z.eqb_eq in H.
Qed.

Lemma prefix_bytes_fill (m : list Z) :
  Forall byte_ok m -> ones_then_zeros (mask_bits m) = true ->
  m = CIDRMask_fill (length m) (count_ones (mask_bits m)).
Proof.
  induction 1 as [|v m Hv Hm IH]; intros Hotz; [reflexivity |].
  rewrite mask_bits_cons in *. simpl length. cbn [CIDRMask_fill].
  destruct (Z.eq_dec v 255) as [->|Hne].
  - change (byte_bits 255) with (repeat true 8) in *. simpl in Hotz. simpl count_ones.
    pose proof (count_ones_bounds (mask_bits m)) as Hc.
    destruct (8 <=? _) eqn:E; [|apply Z.leb_gt in E; lia].
    f_equal. rewrite IH at 1 by exact Hotz. f_equal. lia.
  - pose proof (byte_bits_zero_bit v Hv Hne) as Hin.
    rewrite ones_then_zeros_app in Hotz by exact Hin.
    rewrite count_ones_app by exact Hin.
    apply andb_true_iff in Hotz. destruct Hotz as [Hb Hz].
    rewrite mask_bits_all_zero in Hz by exact Hm.
    pose proof (count_ones_lt _ Hin) as Hlt.
    change (length (byte_bits v)) with 8%nat in Hlt.
    destruct (8 <=? _) eqn:E; [apply Z.leb_le in E; lia |].
    rewrite CIDRMask_fill_zero. f_equal.
    + apply prefix_byte; assumption.
    + apply all_zero_repeat, Hz.
Qed.

(** Every prefix mask is the result of [CIDRMask] on its number of
    one-bits and its width. *)
Lemma prefix_mask_CIDRMask (m : IPMask) :
  prefix_mask m = true -> m = CIDRMask (prefix_bits m) (total_bits m).
Proof.
  intros Hp. destruct (prefix_mask_inv m Hp) as (Hlen & Hok & Hotz).
  pose proof (count_ones_bounds (mask_bits (bytes m))) as Hc.
  unfold prefix_bits, total_bits. rewrite mask_bits_length in *.
  destruct m as [l|]; [| destruct Hlen; discriminate].
  unfold len in Hlen. simpl in *. unfold CIDRMask.
  rewrite (prefix_bytes_fill l Hok Hotz) at 1.
  set (k := count_ones (mask_bits l)) in *.
  assert (E1 : (k <? 0) = false) by (apply Z.ltb_ge; lia).
  destruct Hlen as [Hl | Hl]; rewrite Hl in *.
  - change (Z.of_nat IPv4len * 8) with 32 in *.
    assert (E2 : (32 <? k) = false) by (apply Z.ltb_ge; lia).
    rewrite E1, E2. reflexivity.
  - change (Z.of_nat IPv6len * 8) with 128 in *.
    assert (E2 : (128 <? k) = false) by (apply Z.ltb_ge; lia).
    rewrite E1, E2. reflexivity.
Qed.

(** Claim C1.  For every prefix mask [m] of 4 or 16 bytes: when [m]
    leaves at most 16 host bits, capping returns [m] itself; when it
    leaves more, capping returns the prefix mask of the same total width
    that leaves exactly 16 host bits, which is [CIDRMask 16 32] for IPv4
    and [CIDRMask 112 128] for IPv6. *)
Theorem getNetMaskWithMax16Bits_prefix_mask (m : IPMask) :
  prefix_mask m = true ->
  (host_bits m <= 16 -> getNetMaskWithMax16Bits m = m)
  /\ (16 < host_bits m ->
      getNetMaskWithMax16Bits m = CIDRMask (total_bits m - 16) (total_bits m)
      /\ prefix_mask (getNetMaskWithMax16Bits m) = true
      /\ total_bits (getNetMaskWithMax16Bits m) = total_bits m
      /\ host_bits (getNetMaskWithMax16Bits m) = 16).
Proof.
  intros Hp. destruct (prefix_mask_inv m Hp) as (Hlen & Hok & Hotz).
  pose proof (Size_bits m Hok) as HS. rewrite Hotz in HS.
  assert (Htot : total_bits m = Z.of_nat (len m) * 8).
  { unfold total_bits, len. apply mask_bits_length. }
  unfold host_bits.
  destruct (getNetMaskWithMax16Bits_cases m)
    as [[Hm Hh]|[[Hm [Hh H16]]|[Hm [Hh Hn16]]]];
    rewrite HS in Hh; cbn [fst snd] in Hh.
  - split; [intros _; exact Hm | intros Hgt; lia].
  - split; [intros Hle; lia | intros _].
    rewrite Hm, Htot, H16. vm_compute. repeat split; reflexivity.
  - split; [intros Hle; lia | intros _].
    destruct Hlen as [H4|H16]; [|contradiction].
    rewrite Hm, Htot, H4. vm_compute. repeat split; reflexivity.
Qed.

Lemma getNetMaskWithMax16Bits_prefix_mask_witness :
  (host_bits (CIDRMask 8 32) <= 16 ->
   getNetMaskWithMax16Bits (CIDRMask 8 32) = CIDRMask 8 32)
  /\ (16 < host_bits (CIDRMask 8 32) ->
      getNetMaskWithMax16Bits (CIDRMask 8 32)
      = CIDRMask (total_bits (CIDRMask 8 32) - 16) (total_bits (CIDRMask 8 32))
      /\ prefix_mask (getNetMaskWithMax16Bits (CIDRMask 8 32)) = true
      /\ total_bits (getNetMaskWithMax16Bits (CIDRMask 8 32))
         = total_bits (CIDRMask 8 32)
      /\ host_bits (getNetMaskWithMax16Bits (CIDRMask 8 32)) = 16).
Proof. apply (getNetMaskWithMax16Bits_prefix_mask (CIDRMask 8 32)). reflexivity. Defined.

(** Claim C10.  A mask that is not a run of one-bits followed by
    zero-bits is returned unchanged, whatever its length and however many
    zero-bits it has: [Size] reports [(0, 0)] for it, so the test
    [bits - ones > 16] fails. *)
Theorem getNetMaskWithMax16Bits_non_canonical (m : IPMask) :
  forallb byte_okb (bytes m) = true ->
  ones_then_zeros (mask_bits (bytes m)) = false ->
  Size m = (0, 0) /\ getNetMaskWithMax16Bits m = m.
Proof.
  intros Hok Hotz. apply forallb_byte_okb in Hok.
  pose proof (Size_bits m Hok) as HS. rewrite Hotz in HS.
  split; [exact HS |].
  unfold getNetMaskWithMax16Bits. rewrite HS. reflexivity.
Qed.

Lemma getNetMaskWithMax16Bits_non_canonical_witness :
  Size (Some [255; 0; 0; 1]) = (0, 0)
  /\ getNetMaskWithMax16Bits (Some [255; 0; 0; 1]) = Some [255; 0; 0; 1].
Proof.
  apply (getNetMaskWithMax16Bits_non_canonical (Some [255; 0; 0; 1]));
    reflexivity.
Defined.

(** ** The order and the family of the two addresses *)

Lemma bytes_le_pointwise (a b : list Z) : Forall2 Z.le a b -> bytes_le a b.
Proof.
  unfold bytes_le. induction 1 as [|x y a b Hxy _ IH]; simpl.
  - discriminate.
  - destruct (x ?= y) eqn:E.
    + exact IH.
    + discriminate.
    + apply Z.compare_gt_iff in E. lia.
Qed.

Lemma first_le_last_pointwise (a : list Z) :
  forall m c,
    Forall byte_ok a -> Forall byte_ok m -> Forall byte_ok c ->
    length m = length a -> length c = length a ->
    Forall2 Z.le (zip_with Z.land a m) (last_bytes a c).
Proof.
  induction a as [|x a IH]; intros [|y m] [|z c] Ha Hm Hc Hlm Hlc;
    simpl in *; try discriminate; [constructor |].
  apply Forall_cons in Ha, Hm, Hc.
  destruct Ha as [Hx Ha], Hm as [Hy Hm], Hc as [Hz Hc].
  constructor.
  - pose proof (byte_land_bounds x y Hx Hy).
    pose proof (byte_lor_not_bounds x z Hx Hz). lia.
  - apply IH; auto.
Qed.

Lemma To4_bytes_ok (ip : IP) (a : list Z) :
  Forall byte_ok (bytes ip) -> To4 ip = Some a -> Forall byte_ok a.
Proof.
  intros Hok. unfold To4. destruct (len ip =? IPv4len)%nat.
  - intros ->. exact Hok.
  - destruct (_ && _); [|discriminate]. intros [= <-]. now apply Forall_drop.
Qed.

Lemma canonical_address_ok (ip : IP) (f : family) :
  Forall byte_ok (bytes ip) -> family_of ip = Some f ->
  Forall byte_ok (canonical_address ip).
Proof.
  intros Hok. unfold family_of, canonical_address.
  destruct (To4 ip) as [a|] eqn:E4.
  - intros _. exact (To4_bytes_ok _ _ Hok E4).
  - destruct (len ip =? IPv6len)%nat eqn:E16; [|discriminate].
    intros _. unfold To16. apply Nat.eqb_eq in E16. rewrite E16. exact Hok.
Qed.

Lemma getNetMaskWithMax16Bits_ok (m : IPMask) :
  Forall byte_ok (bytes m) -> Forall byte_ok (bytes (getNetMaskWithMax16Bits m)).
Proof.
  intros Hm.
  destruct (getNetMaskWithMax16Bits_cases m) as [[-> _]|[[-> _]|[-> _]]].
  - exact Hm.
  - apply forallb_byte_okb. reflexivity.
  - apply forallb_byte_okb. reflexivity.
Qed.

(** A slice of four bytes is an IPv4 address. *)
Lemma family_of_IPv4len (l : list Z) :
  length l = IPv4len -> family_of (Some l) = Some FamilyIPv4.
Proof.
  intros Hl. unfold family_of, To4, len. simpl. rewrite Hl. reflexivity.
Qed.

Lemma family_of_IPv6len (l : list Z) :
  length l = IPv6len ->
  family_of (Some l) = Some (if is_v4_mapped l then FamilyIPv4 else FamilyIPv6).
Proof.
  intros Hl. unfold family_of, To4, len, is_v4_mapped. simpl. rewrite Hl. simpl.
  destruct (isZeros (take 10 l) && (l !!! 10%nat =? 255) && (l !!! 11%nat =? 255));
    reflexivity.
Qed.

Lemma is_v4_mapped_ext (l l' : list Z) :
  (forall i, (i < 12)%nat -> l !! i = l' !! i) ->
  is_v4_mapped l = is_v4_mapped l'.
Proof.
  intros Hext. unfold is_v4_mapped.
  rewrite !list_lookup_total_alt, (Hext 10%nat), (Hext 11%nat) by lia.
  f_equal. f_equal. f_equal.
  apply list_eq. intros i.
  destruct (decide (i < 10)%nat) as [Hi|Hi].
  - rewrite !lookup_take_lt by lia. apply Hext. lia.
  - rewrite !lookup_take_ge by lia. reflexivity.
Qed.

(** In a mask of one-bits then zero-bits every byte before a byte 255 is
    255. *)
Lemma prefix_mask_255_before (m : list Z) :
  Forall byte_ok m ->
  ones_then_zeros (mask_bits m) = true ->
  forall i j, m !! j = Some 255 -> (i < j)%nat -> m !! i = Some 255.
Proof.
  induction 1 as [|v m Hv Hm IH]; intros Hotz i j Hj Hij.
  - discriminate.
  - destruct j as [|j]; [lia |]. simpl in Hj.
    rewrite mask_bits_cons in Hotz.
    destruct (Z.eq_dec v 255) as [->|Hne].
    + destruct i as [|i]; [reflexivity |]. simpl.
      apply (IH Hotz i j Hj). lia.
    + exfalso.
      rewrite ones_then_zeros_app in Hotz by (apply byte_bits_zero_bit; assumption).
      apply andb_true_iff in Hotz. destruct Hotz as [_ Hz].
      rewrite mask_bits_all_zero in Hz by exact Hm.
      rewrite forallb_forall in Hz.
      apply list_elem_of_lookup_2, list_elem_of_In in Hj.
      specialize (Hz 255 Hj). discriminate.
Qed.

(** A mask with at least [8 * (k + 1)] leading one-bits has 255 at
    index [k]. *)
Lemma count_ones_lookup (m : list Z) :
  Forall byte_ok m ->
  forall k : nat,
    8 * (Z.of_nat k + 1) <= count_ones (mask_bits m) -> m !! k = Some 255.
Proof.
  induction 1 as [|v m Hv Hm IH]; intros k Hk.
  - simpl in Hk. lia.
  - rewrite mask_bits_cons in Hk.
    destruct (Z.eq_dec v 255) as [->|Hne].
    + destruct k as [|k]; [reflexivity |]. simpl. apply IH.
      change (byte_bits 255) with (repeat true 8) in Hk. simpl in Hk. lia.
    + exfalso.
      pose proof (byte_bits_zero_bit v Hv Hne) as Hin.
      rewrite count_ones_app in Hk by exact Hin.
      pose proof (count_ones_lt _ Hin) as Hlt.
      change (length (byte_bits v)) with 8%nat in Hlt. lia.
Qed.

Lemma byte_land_255 (x y : Z) :
  byte_ok x -> byte_ok y -> Z.land x y = 255 -> x = 255 /\ y = 255.
Proof.
  intros Hx Hy H.
  pose proof (byte_cases2
    (fun x y => negb (Z.land x y =? 255) || ((x =? 255) && (y =? 255)))) as HP.
  specialize (HP ltac:(vm_compute; reflexivity) x y Hx Hy). simpl in HP.
  rewrite H in HP. simpl in HP. apply andb_true_iff in HP. lia.
Qed.

Lemma byte_land_255_r (x : Z) : byte_ok x -> Z.land x 255 = x.
Proof.
  intros Hx. apply Z.eqb_eq. by_byte_cases (fun x => Z.land x 255 =? x) Hx.
Qed.

(** Masking a 16-byte address that is not an IPv4 address with a prefix
    mask does not give an IPv4 address. *)
Lemma first_not_v4_mapped (ip m : list Z) :
  length ip = IPv6len -> length m = IPv6len ->
  Forall byte_ok ip -> Forall byte_ok m ->
  ones_then_zeros (mask_bits m) = true ->
  is_v4_mapped ip = false ->
  is_v4_mapped (zip_with Z.land ip m) = false.
Proof.
  intros Hlip Hlm Hip Hm Hotz Hv4.
  destruct (is_v4_mapped (zip_with Z.land ip m)) eqn:E; [| reflexivity].
  rewrite <- Hv4. clear Hv4. symmetry.
  unfold is_v4_mapped in E.
  apply andb_true_iff in E. destruct E as [E10 E11]. apply Z.eqb_eq in E11.
  destruct (lookup_lt_is_Some_2 ip 11 ltac:(rewrite Hlip; unfold IPv6len; lia))
    as [x11 Hx11].
  destruct (lookup_lt_is_Some_2 m 11 ltac:(rewrite Hlm; unfold IPv6len; lia))
    as [y11 Hy11].
  rewrite list_lookup_total_alt, lookup_zip_with, Hx11, Hy11 in E11. simpl in E11.
  destruct (byte_land_255 x11 y11) as [_ ->]; [| |exact E11|].
  - rewrite Forall_lookup in Hip. exact (Hip _ _ Hx11).
  - rewrite Forall_lookup in Hm. exact (Hm _ _ Hy11).
  - transitivity (is_v4_mapped (zip_with Z.land ip m)).
    2: { unfold is_v4_mapped. rewrite (list_lookup_total_alt _ 11), lookup_zip_with,
           Hx11, Hy11. simpl. rewrite E11, E10. reflexivity. }
    symmetry. apply is_v4_mapped_ext. intros i Hi.
    destruct (lookup_lt_is_Some_2 ip i ltac:(rewrite Hlip; unfold IPv6len; lia))
      as [x Hx].
    assert (Hy : m !! i = Some 255).
    { destruct (decide (i = 11%nat)) as [->|Hne]; [exact Hy11 |].
      apply (prefix_mask_255_before m Hm Hotz i 11 Hy11). lia. }
    rewrite lookup_zip_with, Hx, Hy. simpl. rewrite byte_land_255_r; [reflexivity |].
    rewrite Forall_lookup in Hip. exact (Hip _ _ Hx).
Qed.

(** The capped mask of a 16-byte prefix mask covers the first 14
    bytes. *)
Lemma getNetMaskWithMax16Bits_high_bytes (m : IPMask) (i : nat) :
  prefix_mask m = true -> len m = IPv6len -> (i < 14)%nat ->
  bytes (getNetMaskWithMax16Bits m) !! i = Some 255.
Proof.
  intros Hp H16 Hi. destruct (prefix_mask_inv m Hp) as (_ & Hok & Hotz).
  pose proof (Size_bits m Hok) as HS. rewrite Hotz in HS.
  destruct (getNetMaskWithMax16Bits_cases m)
    as [[-> Hh]|[[-> _]|[_ [_ Hn16]]]].
  - rewrite HS in Hh. cbn [fst snd] in Hh.
    apply count_ones_lookup; [exact Hok |].
    unfold total_bits, prefix_bits in Hh. rewrite mask_bits_length in Hh.
    unfold len in H16. rewrite H16 in Hh. unfold IPv6len in Hh. lia.
  - do 14 (destruct i as [|i]; [reflexivity |]). lia.
  - contradiction.
Qed.

(** No host bit of the capped mask of a 16-byte prefix mask lies in the
    first 12 bytes, so setting them keeps the family. *)
Lemma last_v4_mapped (ip : list Z) (m : IPMask) :
  length ip = IPv6len -> Forall byte_ok ip ->
  prefix_mask m = true -> len m = IPv6len ->
  is_v4_mapped (last_bytes ip (bytes (getNetMaskWithMax16Bits m)))
  = is_v4_mapped ip.
Proof.
  intros Hlip Hip Hp H16. apply is_v4_mapped_ext. intros i Hi.
  destruct (lookup_lt_is_Some_2 ip i ltac:(rewrite Hlip; unfold IPv6len; lia))
    as [x Hx].
  rewrite (last_bytes_lookup _ _ i x 255 Hx)
    by (apply getNetMaskWithMax16Bits_high_bytes; auto; lia).
  rewrite Hx. f_equal. change (byte_not 255) with 0. apply Z.lor_0_r.
Qed.

Lemma canonical_address_IPv6 (ip : IP) :
  family_of ip = Some FamilyIPv6 -> is_v4_mapped (canonical_address ip) = false.
Proof.
  unfold family_of, canonical_address.
  destruct (To4 ip) as [a|] eqn:E4; [discriminate |].
  destruct (len ip =? IPv6len)%nat eqn:E16; [|discriminate]. intros _.
  unfold To16, To4 in *. apply Nat.eqb_eq in E16. rewrite E16 in *. simpl in *.
  unfold is_v4_mapped.
  destruct (isZeros (take 10 (bytes ip)) && (bytes ip !!! 10%nat =? 255)
            && (bytes ip !!! 11%nat =? 255)); [discriminate | reflexivity].
Qed.

(** ** The claims on [networkRange] *)

(** Claim C3.  For every valid network, [networkRange] returns, and the
    first address it returns is the byte-wise AND of the address, in the
    canonical width of its family, with the mask of the network as given,
    not capped. *)
Theorem networkRange_first_is_masked_address (n : IPNet) (g : Globals) :
  valid_network n = true -> globals_ok g ->
  exists lastIP,
    fst (networkRange n g)
    = Returned
        (Some (zip_with Z.land (canonical_address (IPNet_IP n))
                               (bytes (IPNet_Mask n))),
         lastIP).
Proof.
  intros Hv Hg. destruct (networkRange_valid n g Hv Hg) as [g' ->].
  eexists. reflexivity.
Qed.

Lemma networkRange_first_is_masked_address_witness :
  exists lastIP,
    fst (networkRange (mkIPNet (Some [10; 1; 2; 3]) (CIDRMask 8 32)) Globals_init)
    = Returned
        (Some (zip_with Z.land (canonical_address (Some [10; 1; 2; 3]))
                               (bytes (CIDRMask 8 32))),
         lastIP).
Proof.
  apply (networkRange_first_is_masked_address
           (mkIPNet (Some [10; 1; 2; 3]) (CIDRMask 8 32)) Globals_init).
  - reflexivity.
  - split; reflexivity.
Defined.

(** Claim C4.  For every valid network, [networkRange] returns two
    addresses with the first at most the last in the unsigned
    lexicographic order of their bytes, both of the width of the family
    of the network's address, 4 bytes for IPv4 and 16 for IPv6; with a
    prefix mask both are addresses of that family. *)
Theorem networkRange_first_le_last (n : IPNet) (g : Globals) :
  valid_network n = true -> globals_ok g ->
  exists f firstIP lastIP,
    family_of (IPNet_IP n) = Some f
    /\ fst (networkRange n g) = Returned (Some firstIP, Some lastIP)
    /\ bytes_le firstIP lastIP
    /\ length firstIP = width f
    /\ length lastIP = width f
    /\ (prefix_mask (IPNet_Mask n) = true ->
        family_of (Some firstIP) = Some f /\ family_of (Some lastIP) = Some f).
Proof.
  intros Hv Hg. destruct (networkRange_valid n g Hv Hg) as [g' HR].
  destruct (valid_network_inv n Hv) as (Hip & Hm & f & Hf & Hw).
  pose proof (canonical_address_length _ _ Hf) as Hca.
  pose proof (canonical_address_ok _ _ Hip Hf) as Haok.
  assert (Hcap : len (getNetMaskWithMax16Bits (IPNet_Mask n)) = width f).
  { rewrite getNetMaskWithMax16Bits_len; [exact Hw |].
    rewrite Hw. destruct f; auto. }
  unfold len in Hw, Hcap.
  assert (Hl1 : length (zip_with Z.land (canonical_address (IPNet_IP n))
                                 (bytes (IPNet_Mask n))) = width f).
  { rewrite length_zip_with. lia. }
  assert (Hl2 : length (last_bytes (canonical_address (IPNet_IP n))
                          (bytes (getNetMaskWithMax16Bits (IPNet_Mask n))))
                = width f).
  { rewrite last_bytes_length. lia. }
  exists f. eexists. eexists. rewrite HR. cbn [fst].
  split; [exact Hf |]. split; [reflexivity |].
  split; [| split; [exact Hl1 | split; [exact Hl2 |]]].
  - apply bytes_le_pointwise, first_le_last_pointwise; auto; try lia.
    apply getNetMaskWithMax16Bits_ok, Hm.
  - intros Hp. destruct (prefix_mask_inv _ Hp) as (_ & _ & Hotz).
    destruct f.
    + split; apply family_of_IPv4len; assumption.
    + pose proof (canonical_address_IPv6 _ Hf) as Hnot4.
      split.
      * rewrite (family_of_IPv6len _ Hl1), first_not_v4_mapped; auto.
      * rewrite (family_of_IPv6len _ Hl2), last_v4_mapped, Hnot4; auto.
Qed.

Lemma networkRange_first_le_last_witness :
  exists f firstIP lastIP,
    family_of (Some [10; 0; 0; 0]) = Some f
    /\ fst (networkRange (mkIPNet (Some [10; 0; 0; 0]) (CIDRMask 8 32)) Globals_init)
       = Returned (Some firstIP, Some lastIP)
    /\ bytes_le firstIP lastIP
    /\ length firstIP = width f
    /\ length lastIP = width f
    /\ (prefix_mask (CIDRMask 8 32) = true ->
        family_of (Some firstIP) = Some f /\ family_of (Some lastIP) = Some f).
Proof.
  apply (networkRange_first_le_last
           (mkIPNet (Some [10; 0; 0; 0]) (CIDRMask 8 32)) Globals_init).
  - reflexivity.
  - split; reflexivity.
Defined.

(** Setting the host bits of a mask in the masked address or in the
    address itself gives the same bytes: the two differ only where the
    capped mask covers bits that the mask of the network does not. *)
Lemma last_bytes_masked_address (a : list Z) :
  forall m,
    Forall byte_ok a -> Forall byte_ok m ->
    last_bytes (zip_with Z.land a m) m = last_bytes a m.
Proof.
  induction a as [|x a IH]; intros [|y m] Ha Hm; simpl; try reflexivity.
  apply Forall_cons in Ha, Hm. destruct Ha as [Hx Ha], Hm as [Hy Hm].
  unfold last_bytes in *. simpl. f_equal; [|apply IH; assumption].
  apply Z.eqb_eq.
  exact (byte_cases2
           (fun x y => Z.lor (Z.land x y) (byte_not y) =? Z.lor x (byte_not y))
           ltac:(vm_compute; reflexivity) x y Hx Hy).
Qed.

(** Claim C2, on the network 10.1.2.3/8.  The network is valid and its
    mask a prefix mask; the masked address is 10.0.0.0 and the capped
    mask 255.255.0.0, so the masked address with the host bits of the
    capped mask set is 10.0.255.255.  [networkRange] returns 10.1.255.255:
    the loop reads [netIP], the address as given, not [firstIP]. *)
Theorem networkRange_last_reads_netIP :
  let n := mkIPNet (Some [10; 1; 2; 3]) (CIDRMask 8 32) in
  valid_network n = true
  /\ prefix_mask (IPNet_Mask n) = true
  /\ fst (networkRange n Globals_init)
     = Returned (Some [10; 0; 0; 0], Some [10; 1; 255; 255])
  /\ last_bytes (zip_with Z.land (canonical_address (IPNet_IP n))
                                 (bytes (IPNet_Mask n)))
                (bytes (getNetMaskWithMax16Bits (IPNet_Mask n)))
     = [10; 0; 255; 255].
Proof. vm_compute. repeat split; reflexivity. Qed.

Lemma family_of_None (ip : IP) :
  family_of ip = None -> To4 ip = None /\ To16 ip = None.
Proof.
  unfold family_of. destruct (To4 ip) as [a|] eqn:E4; [discriminate |].
  destruct (len ip =? IPv6len)%nat eqn:E16; [discriminate |]. intros _.
  split; [reflexivity |]. unfold To4, To16 in *.
  destruct (len ip =? IPv4len)%nat eqn:E.
  - destruct ip as [l|]; [discriminate E4 | discriminate E].
  - rewrite E16. reflexivity.
Qed.

(** The outcome of [networkRange] on any network, with the package
    variables well formed: a panic when the address has no family or the
    capped mask has fewer bytes than the width of the family, and the
    pair that the two assignments compute otherwise. *)
Lemma networkRange_outcome (n : IPNet) (g : Globals) :
  globals_ok g ->
  fst (networkRange n g)
  = match family_of (IPNet_IP n) with
    | None => Panicked IndexOutOfRange
    | Some f =>
        if (width f <=? len (getNetMaskWithMax16Bits (IPNet_Mask n)))%nat
        then Returned
               (Mask (Some (canonical_address (IPNet_IP n))) (IPNet_Mask n),
                Some (take (width f)
                        (last_bytes (canonical_address (IPNet_IP n))
                           (bytes (getNetMaskWithMax16Bits (IPNet_Mask n))))))
        else Panicked IndexOutOfRange
    end.
Proof.
  intros [Hg4 Hg6].
  destruct (family_of (IPNet_IP n)) as [f|] eqn:Hf.
  - pose proof (canonical_address_length _ _ Hf) as Hca.
    assert (Hnet : exists r,
      networkRange n g
      = (let firstIP := Mask (Some (canonical_address (IPNet_IP n))) (IPNet_Mask n) in
         let intMask := getNetMaskWithMax16Bits (IPNet_Mask n) in
         match view r g with
         | None => (Returned (firstIP, None), g)
         | Some lastIP =>
             match networkRange_loop (length lastIP) 0
                     (Some (canonical_address (IPNet_IP n))) intMask lastIP with
             | (Returned _, lastIP') =>
                 (Returned (firstIP, Some lastIP'), write_back r lastIP' g)
             | (Panicked p, lastIP') => (Panicked p, write_back r lastIP' g)
             end
         end)
      /\ len (view r g) = width f).
    { unfold networkRange, family_of, canonical_address in *.
      destruct (To4 (IPNet_IP n)) as [a|] eqn:E4.
      - injection Hf as <-. exists Var_IPv4zero. split; [reflexivity | exact Hg4].
      - destruct (len (IPNet_IP n) =? IPv6len)%nat eqn:E16; [|discriminate].
        injection Hf as <-. exists Var_IPv6zero. split; [|exact Hg6].
        unfold To16. apply Nat.eqb_eq in E16. rewrite E16. simpl.
        destruct (IPNet_IP n); [reflexivity | discriminate E16]. }
    destruct Hnet as (r & -> & Hview). cbv zeta.
    destruct (view r g) as [l|]; [| destruct f; discriminate Hview].
    unfold len in Hview. simpl in Hview.
    destruct (width f <=? len (getNetMaskWithMax16Bits (IPNet_Mask n)))%nat eqn:E.
    + apply Nat.leb_le in E.
      rewrite networkRange_loop_returns; unfold len in *; simpl; try lia.
      rewrite Hview. reflexivity.
    + apply Nat.leb_gt in E.
      pose proof (networkRange_loop_panics (length l) 0
                    (Some (canonical_address (IPNet_IP n)))
                    (getNetMaskWithMax16Bits (IPNet_Mask n)) l) as Hp.
      destruct (networkRange_loop _ _ _ _ _) as [o l'].
      simpl in Hp. rewrite Hp; [reflexivity | lia |].
      unfold len in *. simpl. lia.
  - destruct (family_of_None _ Hf) as [E4 E16].
    unfold networkRange. rewrite E4, E16.
    destruct (view Var_IPv6zero g) as [l|]; [| discriminate Hg6].
    unfold len in Hg6. simpl in Hg6.
    pose proof (networkRange_loop_panics (length l) 0 None
                  (getNetMaskWithMax16Bits (IPNet_Mask n)) l) as Hp.
    destruct (networkRange_loop _ _ _ _ _) as [o l'].
    simpl in Hp. rewrite Hp; [reflexivity | lia |].
    rewrite Hg6. unfold IPv6len. lia.
Qed.

(** Claim C8, as the code has it.  [networkRange] validates nothing and
    has no error result.  For a network whose address and mask have
    mismatched families or whose mask is not a prefix mask, given by
    value and with the package variables well formed, the call stops
    with an index out of range when the address has no family or the
    capped mask has fewer bytes than the width of the family; otherwise
    it returns a pair: first what [netIP.Mask(mask)] gives, nil or not,
    and last a slice of the width of the family. *)
Theorem networkRange_no_validation (n : IPNet) (g : Globals) :
  valid_network n && prefix_mask (IPNet_Mask n) = false ->
  globals_ok g ->
  match family_of (IPNet_IP n) with
  | None => fst (networkRange n g) = Panicked IndexOutOfRange
  | Some f =>
      if (width f <=? len (getNetMaskWithMax16Bits (IPNet_Mask n)))%nat
      then exists lastIP,
          fst (networkRange n g)
          = Returned (Mask (Some (canonical_address (IPNet_IP n))) (IPNet_Mask n),
                      Some lastIP)
          /\ length lastIP = width f
      else fst (networkRange n g) = Panicked IndexOutOfRange
  end.
Proof.
  intros _ Hg. rewrite (networkRange_outcome n g Hg).
  destruct (family_of (IPNet_IP n)) as [f|] eqn:Hf; [|reflexivity].
  destruct (width f <=? len (getNetMaskWithMax16Bits (IPNet_Mask n)))%nat eqn:E;
    [|reflexivity].
  apply Nat.leb_le in E. eexists. split; [reflexivity |].
  pose proof (canonical_address_length _ _ Hf) as Hca.
  rewrite length_take, last_bytes_length. unfold len in E. lia.
Qed.

Lemma networkRange_no_validation_witness :
  exists lastIP,
    fst (networkRange (mkIPNet (IPv4 10 1 2 3) (CIDRMask 120 128)) Globals_init)
    = Returned (Some [10; 1; 2; 0], Some lastIP)
    /\ length lastIP = 4%nat.
Proof.
  apply (networkRange_no_validation
           (mkIPNet (IPv4 10 1 2 3) (CIDRMask 120 128)) Globals_init).
  - reflexivity.
  - split; reflexivity.
Defined.

(** Claim C8, as stated, fails.  The IPv4 address 10.1.2.3 with the
    16-byte mask ffff:ffff:: and the same address with the
    non-contiguous mask 255.0.255.0 both get a pair of addresses back and
    no error; for the first of the two networks the first address is
    nil. *)
Lemma networkRange_accepts_invalid_network :
  let mismatched := mkIPNet (Some [10; 1; 2; 3]) (CIDRMask 32 128) in
  let malformed := mkIPNet (Some [10; 1; 2; 3]) (Some [255; 0; 255; 0]) in
  valid_network mismatched = false
  /\ fst (networkRange mismatched Globals_init)
     = Returned (None, Some [10; 1; 2; 3])
  /\ prefix_mask (IPNet_Mask malformed) = false
  /\ fst (networkRange malformed Globals_init)
     = Returned (Some [10; 0; 2; 0], Some [10; 255; 2; 255]).
Proof. vm_compute. repeat split; reflexivity. Qed.

(** ** The package variables *)

Lemma Globals_init_ok : globals_ok Globals_init.
Proof. split; reflexivity. Qed.

Lemma networkRange_loop_length (steps : nat) :
  forall i netIP intMask lastIP,
    length (snd (networkRange_loop steps i netIP intMask lastIP)) = length lastIP.
Proof.
  induction steps as [|steps IH]; intros i netIP intMask lastIP; simpl.
  - reflexivity.
  - destruct (index netIP i); [|reflexivity].
    destruct (index intMask i); [|reflexivity].
    rewrite IH. apply length_insert.
Qed.

(** Writing a slice of the same length through the view keeps the
    package variables well formed. *)
Lemma write_back_ok (r : zero_var) (l l' : list Z) (g : Globals) :
  globals_ok g -> view r g = Some l -> length l' = length l ->
  globals_ok (write_back r l' g).
Proof.
  intros [Hg4 Hg6] Hview Hlen. unfold globals_ok, write_back, view in *.
  destruct r.
  - unfold To4, len in *. simpl in *.
    destruct (length (IPv4zero g) =? IPv4len)%nat eqn:E4.
    + injection Hview as <-. apply Nat.eqb_eq in E4. simpl.
      rewrite Hlen, E4. simpl. split; [congruence | exact Hg6].
    + destruct (_ && _) eqn:E; [|discriminate Hg4].
      injection Hview as <-. simpl.
      apply andb_true_iff in E. destruct E as [E E11].
      apply andb_true_iff in E. destruct E as [E E10].
      apply andb_true_iff in E. destruct E as [E16 Ez].
      apply Nat.eqb_eq in E16.
      assert (Hl' : length l' = 4%nat) by (rewrite Hlen, length_drop, E16; reflexivity).
      assert (Hlen16 : length (take 12 (IPv4zero g) ++ l') = 16%nat).
      { rewrite length_app, length_take, E16, Hl'. reflexivity. }
      rewrite Hlen16. simpl.
      rewrite take_app_le by (rewrite length_take, E16; simpl; lia).
      rewrite take_take. simpl Nat.min. rewrite Ez.
      rewrite !lookup_total_app_l by (rewrite length_take, E16; simpl; lia).
      rewrite !list_lookup_total_alt, !lookup_take_lt by lia.
      rewrite <- !list_lookup_total_alt, E10, E11. simpl.
      rewrite drop_app_length' by (rewrite length_take, E16; reflexivity).
      split; [exact Hl' | exact Hg6].
  - destruct (length (IPv6zero g) =? IPv6len)%nat eqn:E16.
    + apply Nat.eqb_eq in E16. unfold To16, len in *. simpl in *.
      rewrite E16 in Hview. simpl in Hview. injection Hview as <-.
      rewrite Hlen, E16. simpl. split; [exact Hg4 | congruence].
    + split; assumption.
Qed.

(** [networkRange] leaves the package variables well formed, whatever
    the network. *)
Lemma networkRange_globals_ok (n : IPNet) (g : Globals) :
  globals_ok g -> globals_ok (snd (networkRange n g)).
Proof.
  intros Hg. unfold networkRange.
  destruct (match To4 (IPNet_IP n) with
            | Some _ as netIP => (netIP, Var_IPv4zero)
            | None => (To16 (IPNet_IP n), Var_IPv6zero)
            end) as [netIP r].
  destruct (view r g) as [l|] eqn:Hview; [|exact Hg].
  pose proof (networkRange_loop_length (length l) 0 netIP
                (getNetMaskWithMax16Bits (IPNet_Mask n)) l) as Hlen.
  destruct (networkRange_loop _ _ _ _ _) as [[u|p] l']; simpl in *;
    exact (write_back_ok r l l' g Hg Hview Hlen).
Qed.

(** The last address returned is a view of the package variable: after
    the call on 10.0.0.0/8, [net.IPv4zero] is no longer 0.0.0.0 but
    10.0.255.255. *)
Lemma networkRange_writes_IPv4zero :
  IPv4zero (snd (networkRange (mkIPNet (Some [10; 0; 0; 0]) (CIDRMask 8 32))
                              Globals_init))
  = bytes (IPv4 10 0 255 255).
Proof. reflexivity. Qed.

(** ** The random port *)

Section RandomClaims.
Context {S : Type} `{rand.Source S}.

(** Claim C7.  For every clock reading and every state of the
    generator, whatever value the generator draws, [randomPort] returns
    a port [p] with [1024 <= p < 65535]; it does not panic and has no
    error result. *)
Theorem randomPort_in_range (now : Z) (s : S) :
  exists p, fst (randomPort now s) = Returned p /\ 1024 <= p < 65535.
Proof.
  unfold randomPort, rand.Intn. cbv zeta.
  change (65535 - 1024) with 64511. change (64511 <=? 0) with false. cbv iota.
  pose proof (rand.Intn_draw_range 64511 (rand.Seed now s) ltac:(lia)) as Hr.
  destruct (rand.Intn_draw 64511 (rand.Seed now s)) as [r s'].
  simpl in *. exists (r + 1024). split; [reflexivity | lia].
Qed.

(** Claim C9.  What [randomPort] and [randomMACAddress] return is a
    function of the clock reading alone: two calls that read the same
    clock reseed the generator to the same state and return the same
    value, whatever state the generator was in, the state that an
    earlier call left included. *)
Theorem random_results_fixed_by_clock (now : Z) (s s' : S) :
  rand.Seed now s = rand.Seed now s'
  /\ randomPort now s = randomPort now s'
  /\ randomMACAddress now s = randomMACAddress now s'
  /\ randomPort now (snd (randomPort now s)) = randomPort now s
  /\ randomMACAddress now (snd (randomMACAddress now s)) = randomMACAddress now s.
Proof.
  assert (Hseed : forall a b : S, rand.Seed now a = rand.Seed now b)
    by (intros a b; apply rand.Seed_resets).
  repeat split.
  - apply Hseed.
  - unfold randomPort. rewrite (Hseed s s'). reflexivity.
  - unfold randomMACAddress. rewrite (Hseed s s'). reflexivity.
  - unfold randomPort at 1 3. rewrite (Hseed _ s). reflexivity.
  - unfold randomMACAddress at 1 3. rewrite (Hseed _ s). reflexivity.
Qed.

End RandomClaims.

(** ** The MAC address *)

(** [%02x] of a byte is two characters of [[0-9a-f]]. *)
Lemma Sprintf_02x_matches (b : Z) :
  byte_ok b -> matches hex2 (fmt.Sprintf_02x b) = true.
Proof.
  intros Hb. by_byte_cases (fun b => matches hex2 (fmt.Sprintf_02x b)) Hb.
Qed.

(** Reading the two characters back gives the byte. *)
Lemma Sprintf_02x_value (b : Z) :
  byte_ok b ->
  hex_value (fmt.hex_digit (b / 16)) = Some (b / 16)
  /\ hex_value (fmt.hex_digit (b mod 16)) = Some (b mod 16).
Proof.
  intros Hb.
  pose proof (byte_cases
    (fun b => match hex_value (fmt.hex_digit (b / 16)),
                    hex_value (fmt.hex_digit (b mod 16)) with
              | Some h, Some l => (h =? b / 16) && (l =? b mod 16)
              | _, _ => false
              end) ltac:(vm_compute; reflexivity) b Hb) as H.
  simpl in H.
  destruct (hex_value (fmt.hex_digit (b / 16))) as [h|]; [|discriminate].
  destruct (hex_value (fmt.hex_digit (b mod 16))) as [l|]; [|discriminate].
  apply andb_true_iff in H. destruct H as [H1 H2].
  apply Z.eqb_eq in H1, H2. subst. auto.
Qed.

Lemma mac_string_matches (b0 b1 b2 : Z) :
  byte_ok b0 -> byte_ok b1 -> byte_ok b2 ->
  matches mac_regex (mac_string b0 b1 b2) = true.
Proof.
  intros H0 H1 H2.
  pose proof (Sprintf_02x_matches b0 H0) as M0.
  pose proof (Sprintf_02x_matches b1 H1) as M1.
  pose proof (Sprintf_02x_matches b2 H2) as M2.
  unfold fmt.Sprintf_02x, hex2 in *. cbn [matches] in M0, M1, M2.
  rewrite andb_true_r in M0, M1, M2.
  apply andb_true_iff in M0, M1, M2.
  destruct M0 as [M0h M0l], M1 as [M1h M1l], M2 as [M2h M2l].
  unfold mac_string, mac_regex, hex2, fmt.Sprintf_02x.
  cbn [String.append list_ascii_of_string map app matches].
  rewrite M0h, M0l, M1h, M1l, M2h, M2l. reflexivity.
Qed.

Lemma mac_string_octet_3 (b0 b1 b2 : Z) :
  byte_ok b0 -> octet (mac_string b0 b1 b2) 3 = Some b0.
Proof.
  intros H0. destruct (Sprintf_02x_value b0 H0) as [Hh Hl].
  unfold octet, mac_string, fmt.Sprintf_02x. cbn [String.append Nat.mul Nat.add String.get].
  simpl String.get. rewrite Hh, Hl. f_equal.
  unfold byte_ok in H0. pose proof (Z.div_mod b0 16 ltac:(lia)). lia.
Qed.

(** The first random byte as the code leaves it. *)
Lemma mac_first_byte (b : Z) :
  byte_ok b ->
  let x := Z.lor (Z.land (Z.lor b 2) 254) 2 in
  let y := if x =? 254 then 238 else x in
  byte_ok y /\ y <> 254 /\ Z.testbit y 0 = false /\ Z.testbit y 1 = true.
Proof.
  intros Hb.
  pose proof (byte_cases
    (fun b =>
       let x := Z.lor (Z.land (Z.lor b 2) 254) 2 in
       let y := if x =? 254 then 238 else x in
       byte_okb y && negb (y =? 254) && negb (Z.testbit y 0) && Z.testbit y 1)
    ltac:(vm_compute; reflexivity) b Hb) as H.
  cbv zeta in *.
  apply andb_true_iff in H. destruct H as [H Hbit1].
  apply andb_true_iff in H. destruct H as [H Hbit0].
  apply andb_true_iff in H. destruct H as [Hok Hne].
  apply byte_okb_spec in Hok. apply negb_true_iff in Hbit0, Hne.
  apply Z.eqb_neq in Hne. auto.
Qed.

Section MACClaims.
Context {S : Type} `{rand.Source S}.

(** [randomMACAddress] in one equation: the error of [rand.Read] if
    there is one, and otherwise the three bytes read, the first one
    adjusted, formatted after the prefix. *)
Lemma randomMACAddress_unfold (now : Z) (s : S) :
  exists b0 b1 b2,
    byte_ok b0 /\ byte_ok b1 /\ byte_ok b2
    /\ fst (fst (rand.Read 3 (rand.Seed now s))) = [b0; b1; b2]
    /\ randomMACAddress now s
       = match snd (fst (rand.Read 3 (rand.Seed now s))) with
         | Some e => ((EmptyString, Some e), snd (rand.Read 3 (rand.Seed now s)))
         | None =>
             let x := Z.lor (Z.land (Z.lor b0 2) 254) 2 in
             ((mac_string (if x =? 254 then 238 else x) b1 b2, None),
              snd (rand.Read 3 (rand.Seed now s)))
         end.
Proof.
  unfold randomMACAddress.
  destruct (rand.Read_fills 3 (rand.Seed now s)) as [Hlen Hok].
  destruct (rand.Read 3 (rand.Seed now s)) as [[buf err] s1]. simpl in *.
  destruct buf as [|b0 [|b1 [|b2 [|]]]]; try discriminate Hlen.
  apply Forall_cons in Hok. destruct Hok as [H0 Hok].
  apply Forall_cons in Hok. destruct Hok as [H1 Hok].
  apply Forall_cons in Hok. destruct Hok as [H2 _].
  exists b0, b1, b2.
  split; [exact H0 |]. split; [exact H1 |]. split; [exact H2 |].
  split; [reflexivity |].
  destruct err as [e|]; [reflexivity |].
  simpl. unfold mac_string.
  destruct (Z.lor (Z.land (Z.lor b0 2) 254) 2 =? 254); reflexivity.
Qed.

(** [randomMACAddress] succeeds exactly when [rand.Read] does. *)
Lemma randomMACAddress_succeeds (now : Z) (s : S) :
  snd (fst (rand.Read 3 (rand.Seed now s))) = None ->
  exists mac, fst (randomMACAddress now s) = (mac, None).
Proof.
  intros Hread.
  destruct (randomMACAddress_unfold now s) as (b0 & b1 & b2 & _ & _ & _ & _ & ->).
  rewrite Hread. eexists. reflexivity.
Qed.

(** Claim C6.  Whatever three bytes the generator supplies, the string
    that a successful call returns matches
    [^52:54:00:[0-9a-f]{2}:[0-9a-f]{2}:[0-9a-f]{2}$], and its fourth
    octet, the first random byte as adjusted, is not 0xfe, has bit 0
    clear and bit 1 set, also when 0xee has replaced 0xfe. *)
Theorem randomMACAddress_format (now : Z) (s s' : S) (mac : string) :
  randomMACAddress now s = ((mac, None), s') ->
  matches mac_regex mac = true
  /\ exists b, octet mac 3 = Some b
               /\ b <> 254
               /\ Z.testbit b 0 = false
               /\ Z.testbit b 1 = true.
Proof.
  intros Hret.
  destruct (randomMACAddress_unfold now s)
    as (b0 & b1 & b2 & H0 & H1 & H2 & _ & Heq).
  rewrite Hret in Heq.
  destruct (snd (fst (rand.Read 3 (rand.Seed now s)))) as [e|];
    [discriminate Heq |].
  cbv zeta in Heq. injection Heq as -> _.
  destruct (mac_first_byte b0 H0) as (Hy & Hne & Hbit0 & Hbit1).
  cbv zeta in Hy, Hne, Hbit0, Hbit1.
  split.
  - apply mac_string_matches; assumption.
  - eexists. split; [apply mac_string_octet_3; exact Hy |]. auto.
Qed.

End MACClaims.

Lemma randomMACAddress_format_witness :
  matches mac_regex "52:54:00:de:04:65" = true
  /\ exists b, octet "52:54:00:de:04:65" 3 = Some b
               /\ b <> 254
               /\ Z.testbit b 0 = false
               /\ Z.testbit b 1 = true.
Proof.
  apply (randomMACAddress_format (S := Z) 12345 0 1449466924 "52:54:00:de:04:65").
  reflexivity.
Defined.

(** * Further properties of the code *)

(** ** More on [getNetMaskWithMax16Bits] *)

(** For every mask, a nil slice and a slice of any length or content
    included, [Size] of the capped mask reports at most 16 host bits. *)
Theorem getNetMaskWithMax16Bits_at_most_16 (m : IPMask) :
  snd (Size (getNetMaskWithMax16Bits m)) - fst (Size (getNetMaskWithMax16Bits m))
  <= 16.
Proof.
  destruct (getNetMaskWithMax16Bits_cases m)
    as [[-> Hh]|[[-> _]|[-> _]]].
  - exact Hh.
  - vm_compute. discriminate.
  - vm_compute. discriminate.
Qed.

(** A mask of one-bits then zero-bits whose length is not 16 bytes and
    which has more than 16 zero-bits is replaced by the 4-byte mask
    255.255.0.0, whatever its own length: the test [bits == 128] is the
    only one on the width. *)
Theorem getNetMaskWithMax16Bits_other_width (m : IPMask) :
  forallb byte_okb (bytes m) = true ->
  ones_then_zeros (mask_bits (bytes m)) = true ->
  len m <> IPv6len ->
  16 < host_bits m ->
  getNetMaskWithMax16Bits m = Some [255; 255; 0; 0].
Proof.
  intros Hok Hotz Hlen Hhost. apply forallb_byte_okb in Hok.
  pose proof (Size_bits m Hok) as HS. rewrite Hotz in HS.
  unfold host_bits in Hhost.
  destruct (getNetMaskWithMax16Bits_cases m)
    as [[_ Hh]|[[_ [_ H16]]|[-> _]]].
  - rewrite HS in Hh. cbn [fst snd] in Hh. lia.
  - contradiction.
  - reflexivity.
Qed.

Lemma getNetMaskWithMax16Bits_other_width_witness :
  getNetMaskWithMax16Bits (Some [255; 0; 0; 0; 0]) = Some [255; 255; 0; 0].
Proof.
  apply (getNetMaskWithMax16Bits_other_width (Some [255; 0; 0; 0; 0])).
  - reflexivity.
  - reflexivity.
  - discriminate.
  - vm_compute. reflexivity.
Defined.

Lemma mask_covers_refl (m : list Z) : mask_covers m m = true.
Proof.
  unfold mask_covers. rewrite Nat.eqb_refl. simpl.
  induction m as [|y m IH]; simpl; [reflexivity |].
  rewrite Z.land_diag, Z.eqb_refl. exact IH.
Qed.

(** The capped mask of a prefix mask has every one-bit of the mask. *)
Lemma capped_mask_covers (m : IPMask) :
  prefix_mask m = true ->
  mask_covers (bytes (getNetMaskWithMax16Bits m)) (bytes m) = true.
Proof.
  intros Hp. destruct (prefix_mask_inv m Hp) as (Hlen & Hok & Hotz).
  pose proof (Size_bits m Hok) as HS. rewrite Hotz in HS.
  pose proof (prefix_mask_CIDRMask m Hp) as Hm.
  pose proof (count_ones_bounds (mask_bits (bytes m))) as Hc.
  assert (Htot : total_bits m = Z.of_nat (len m) * 8).
  { unfold total_bits, len. apply mask_bits_length. }
  destruct (getNetMaskWithMax16Bits_cases m)
    as [[-> _]|[[-> [Hh H16]]|[-> [Hh Hn16]]]].
  - apply mask_covers_refl.
  - rewrite HS in Hh. cbn [fst snd] in Hh.
    rewrite Htot, H16 in Hh, Hm. change (Z.of_nat 16 * 8) with 128 in Hh, Hm.
    unfold prefix_bits in *.
    assert (Hall : forallb (covers_checks (CIDRMask 112 128) 128) (seq 0 113) = true)
      by (vm_compute; reflexivity).
    rewrite forallb_forall in Hall.
    specialize (Hall (Z.to_nat (count_ones (mask_bits (bytes m))))
                     ltac:(apply in_seq; lia)).
    unfold covers_checks in Hall. rewrite Z2Nat.id in Hall by lia.
    rewrite <- Hm in Hall. exact Hall.
  - destruct Hlen as [H4|H16]; [|contradiction].
    rewrite HS in Hh. cbn [fst snd] in Hh.
    rewrite Htot, H4 in Hh, Hm. change (Z.of_nat IPv4len * 8) with 32 in Hh, Hm.
    unfold prefix_bits in *.
    assert (Hall : forallb (covers_checks (CIDRMask 16 32) 32) (seq 0 17) = true)
      by (vm_compute; reflexivity).
    rewrite forallb_forall in Hall.
    specialize (Hall (Z.to_nat (count_ones (mask_bits (bytes m))))
                     ltac:(apply in_seq; lia)).
    unfold covers_checks in Hall. rewrite Z2Nat.id in Hall by lia.
    rewrite <- Hm in Hall. exact Hall.
Qed.

(** Capping a prefix mask only turns zero-bits into one-bits: the capped
    mask has every one-bit of the mask, the same width, and a prefix at
    least as long. *)
Theorem getNetMaskWithMax16Bits_covers (m : IPMask) :
  prefix_mask m = true ->
  mask_covers (bytes (getNetMaskWithMax16Bits m)) (bytes m) = true
  /\ len (getNetMaskWithMax16Bits m) = len m
  /\ prefix_bits m <= prefix_bits (getNetMaskWithMax16Bits m).
Proof.
  intros Hp. split; [exact (capped_mask_covers m Hp) |].
  destruct (prefix_mask_inv m Hp) as (Hlen & Hok & Hotz).
  split; [exact (getNetMaskWithMax16Bits_len m Hlen) |].
  pose proof (Size_bits m Hok) as HS. rewrite Hotz in HS.
  assert (Htot : total_bits m = Z.of_nat (len m) * 8).
  { unfold total_bits, len. apply mask_bits_length. }
  destruct (getNetMaskWithMax16Bits_cases m)
    as [[-> _]|[[-> [Hh H16]]|[-> [Hh Hn16]]]];
    [lia | |]; rewrite HS in Hh; cbn [fst snd] in Hh.
  - rewrite Htot, H16 in Hh.
    change (prefix_bits (CIDRMask 112 128)) with 112.
    change (Z.of_nat 16 * 8) with 128 in Hh. lia.
  - destruct Hlen as [H4|H16]; [|contradiction].
    rewrite Htot, H4 in Hh.
    change (prefix_bits (CIDRMask 16 32)) with 16.
    change (Z.of_nat IPv4len * 8) with 32 in Hh. lia.
Qed.

Lemma getNetMaskWithMax16Bits_covers_witness :
  mask_covers (bytes (getNetMaskWithMax16Bits (CIDRMask 8 32)))
              (bytes (CIDRMask 8 32)) = true
  /\ len (getNetMaskWithMax16Bits (CIDRMask 8 32)) = len (CIDRMask 8 32)
  /\ prefix_bits (CIDRMask 8 32)
     <= prefix_bits (getNetMaskWithMax16Bits (CIDRMask 8 32)).
Proof. apply (getNetMaskWithMax16Bits_covers (CIDRMask 8 32)). reflexivity. Defined.

(** ** More on [networkRange] *)

Lemma zip_land_idem (a : list Z) :
  forall m, zip_with Z.land (zip_with Z.land a m) m = zip_with Z.land a m.
Proof.
  induction a as [|x a IH]; intros [|y m]; simpl; try reflexivity.
  rewrite <- Z.land_assoc, Z.land_diag, IH. reflexivity.
Qed.

Lemma byte_not_covered (c m : Z) :
  byte_ok c -> byte_ok m -> Z.land m c = m -> Z.land (byte_not c) m = 0.
Proof.
  intros Hc Hm H.
  pose proof (byte_cases2
    (fun c m => negb (Z.land m c =? m) || (Z.land (byte_not c) m =? 0))
    ltac:(vm_compute; reflexivity) c m Hc Hm) as HP.
  cbv beta in HP. rewrite H, Z.eqb_refl in HP. now apply Z.eqb_eq in HP.
Qed.

(** Masking the last address with a mask that the capped mask covers
    gives the masked address. *)
Lemma last_bytes_land (a : list Z) :
  forall c m,
    Forall byte_ok c -> Forall byte_ok m -> mask_covers c m = true ->
    zip_with Z.land (last_bytes a c) m = zip_with Z.land a m.
Proof.
  unfold mask_covers, last_bytes.
  induction a as [|x a IH]; intros [|z c] [|y m] Hc Hm Hcov; simpl in *;
    try reflexivity; try discriminate.
  apply Forall_cons in Hc, Hm. destruct Hc as [Hz Hc], Hm as [Hy Hm].
  apply andb_true_iff in Hcov. destruct Hcov as [Hlen Hcov].
  apply andb_true_iff in Hcov. destruct Hcov as [Hzy Hcov].
  apply Z.eqb_eq in Hzy. f_equal.
  - rewrite Z.land_lor_distr_l, (byte_not_covered z y Hz Hy Hzy). apply Z.lor_0_r.
  - apply IH; auto. rewrite Hlen. exact Hcov.
Qed.

(** Both addresses that [networkRange] returns for a valid network with
    a prefix mask lie in the network: masked with the mask of the
    network, each gives the first address. *)
Theorem networkRange_within_network (n : IPNet) (g : Globals) :
  valid_network n = true -> prefix_mask (IPNet_Mask n) = true -> globals_ok g ->
  exists firstIP lastIP,
    fst (networkRange n g) = Returned (Some firstIP, Some lastIP)
    /\ zip_with Z.land firstIP (bytes (IPNet_Mask n)) = firstIP
    /\ zip_with Z.land lastIP (bytes (IPNet_Mask n)) = firstIP.
Proof.
  intros Hv Hp Hg. destruct (networkRange_valid n g Hv Hg) as [g' ->].
  destruct (prefix_mask_inv _ Hp) as (_ & Hm & _).
  eexists. eexists. split; [reflexivity |]. split.
  - apply zip_land_idem.
  - apply last_bytes_land.
    + apply getNetMaskWithMax16Bits_ok, Hm.
    + exact Hm.
    + apply capped_mask_covers, Hp.
Qed.

Lemma networkRange_within_network_witness :
  exists firstIP lastIP,
    fst (networkRange (mkIPNet (Some [10; 1; 2; 3]) (CIDRMask 8 32)) Globals_init)
    = Returned (Some firstIP, Some lastIP)
    /\ zip_with Z.land firstIP (bytes (CIDRMask 8 32)) = firstIP
    /\ zip_with Z.land lastIP (bytes (CIDRMask 8 32)) = firstIP.
Proof.
  apply (networkRange_within_network
           (mkIPNet (Some [10; 1; 2; 3]) (CIDRMask 8 32)) Globals_init).
  - reflexivity.
  - reflexivity.
  - split; reflexivity.
Defined.

(** The capped mask of a prefix mask is 255 in every byte but the last
    two. *)
Lemma capped_mask_high_bytes (m : IPMask) (i : nat) :
  prefix_mask m = true -> (i + 2 < len m)%nat ->
  bytes (getNetMaskWithMax16Bits m) !! i = Some 255.
Proof.
  intros Hp Hi. destruct (prefix_mask_inv m Hp) as (Hlen & Hok & Hotz).
  pose proof (Size_bits m Hok) as HS. rewrite Hotz in HS.
  destruct (getNetMaskWithMax16Bits_cases m)
    as [[-> Hh]|[[-> [_ H16]]|[-> [_ Hn16]]]].
  - rewrite HS in Hh. cbn [fst snd] in Hh.
    apply count_ones_lookup; [exact Hok |].
    unfold total_bits, prefix_bits in Hh. rewrite mask_bits_length in Hh.
    unfold len in Hi. lia.
  - rewrite H16 in Hi. do 14 (destruct i as [|i]; [reflexivity |]). lia.
  - destruct Hlen as [H4|H16]; [|contradiction].
    rewrite H4 in Hi. unfold IPv4len in Hi.
    do 2 (destruct i as [|i]; [reflexivity |]). lia.
Qed.

(** For a valid network with a prefix mask, the last address differs
    from the address as given in its last two bytes at most: the bytes
    before them are those of the address, masked or not. *)
Theorem networkRange_last_keeps_high_bytes (n : IPNet) (g : Globals) :
  valid_network n = true -> prefix_mask (IPNet_Mask n) = true -> globals_ok g ->
  exists f firstIP lastIP,
    family_of (IPNet_IP n) = Some f
    /\ fst (networkRange n g) = Returned (firstIP, Some lastIP)
    /\ length lastIP = width f
    /\ take (width f - 2) lastIP
       = take (width f - 2) (canonical_address (IPNet_IP n)).
Proof.
  intros Hv Hp Hg. destruct (networkRange_valid n g Hv Hg) as [g' ->].
  destruct (valid_network_inv n Hv) as (_ & _ & f & Hf & Hw).
  pose proof (canonical_address_length _ _ Hf) as Hca.
  assert (Hcap : len (getNetMaskWithMax16Bits (IPNet_Mask n)) = width f).
  { rewrite getNetMaskWithMax16Bits_len; [exact Hw |].
    rewrite Hw. destruct f; auto. }
  exists f. eexists. eexists. split; [exact Hf |]. split; [reflexivity |].
  split; [rewrite last_bytes_length; unfold len in Hcap; lia |].
  apply list_eq. intros i.
  destruct (decide (i < width f - 2)%nat) as [Hi|Hi].
  - rewrite !lookup_take_lt by lia.
    destruct (lookup_lt_is_Some_2 (canonical_address (IPNet_IP n)) i ltac:(lia))
      as [x Hx].
    rewrite (last_bytes_lookup _ _ i x 255 Hx)
      by (apply capped_mask_high_bytes; [exact Hp | lia]).
    rewrite Hx. f_equal. change (byte_not 255) with 0. apply Z.lor_0_r.
  - rewrite !lookup_take_ge by lia. reflexivity.
Qed.

Lemma networkRange_last_keeps_high_bytes_witness :
  exists f firstIP lastIP,
    family_of (Some [10; 1; 2; 3]) = Some f
    /\ fst (networkRange (mkIPNet (Some [10; 1; 2; 3]) (CIDRMask 8 32)) Globals_init)
       = Returned (firstIP, Some lastIP)
    /\ length lastIP = width f
    /\ take (width f - 2) lastIP
       = take (width f - 2) (canonical_address (Some [10; 1; 2; 3])).
Proof.
  apply (networkRange_last_keeps_high_bytes
           (mkIPNet (Some [10; 1; 2; 3]) (CIDRMask 8 32)) Globals_init).
  - reflexivity.
  - reflexivity.
  - split; reflexivity.
Defined.

(** For a valid network whose prefix mask leaves at most 16 host bits,
    the last address is the first address with every host bit of the
    mask set, whatever host bits the address as given has. *)
Theorem networkRange_last_is_broadcast (n : IPNet) (g : Globals) :
  valid_network n = true -> prefix_mask (IPNet_Mask n) = true ->
  host_bits (IPNet_Mask n) <= 16 -> globals_ok g ->
  exists firstIP,
    fst (networkRange n g)
    = Returned (Some firstIP, Some (last_bytes firstIP (bytes (IPNet_Mask n)))).
Proof.
  intros Hv Hp Hhost Hg. destruct (networkRange_valid n g Hv Hg) as [g' ->].
  destruct (valid_network_inv n Hv) as (Hip & Hm & f & Hf & Hw).
  destruct (prefix_mask_inv _ Hp) as (_ & _ & Hotz).
  pose proof (Size_bits _ Hm) as HS. rewrite Hotz in HS.
  assert (Hcap : getNetMaskWithMax16Bits (IPNet_Mask n) = IPNet_Mask n).
  { unfold host_bits in Hhost.
    destruct (getNetMaskWithMax16Bits_cases (IPNet_Mask n))
      as [[Hc _]|[[_ [Hh _]]|[_ [Hh _]]]];
      [exact Hc | |]; rewrite HS in Hh; cbn [fst snd] in Hh; lia. }
  rewrite Hcap. eexists. cbn [fst]. f_equal. f_equal. f_equal.
  symmetry. apply last_bytes_masked_address; [|exact Hm].
  exact (canonical_address_ok _ _ Hip Hf).
Qed.

Lemma networkRange_last_is_broadcast_witness :
  exists firstIP,
    fst (networkRange (mkIPNet (Some [10; 0; 9; 7]) (CIDRMask 20 32)) Globals_init)
    = Returned (Some firstIP, Some (last_bytes firstIP (bytes (CIDRMask 20 32)))).
Proof.
  apply (networkRange_last_is_broadcast
           (mkIPNet (Some [10; 0; 9; 7]) (CIDRMask 20 32)) Globals_init).
  - reflexivity.
  - reflexivity.
  - vm_compute. discriminate.
  - split; reflexivity.
Defined.

(** ** [networkRange] and the package variables of [net] *)

(** [networkRange] on an address that has a family. *)
Lemma networkRange_family (n : IPNet) (g : Globals) (f : family) :
  family_of (IPNet_IP n) = Some f ->
  networkRange n g
  = match view (family_var f) g with
    | None =>
        (Returned (Mask (Some (canonical_address (IPNet_IP n))) (IPNet_Mask n),
                   None), g)
    | Some lastIP =>
        match networkRange_loop (length lastIP) 0
                (Some (canonical_address (IPNet_IP n)))
                (getNetMaskWithMax16Bits (IPNet_Mask n)) lastIP with
        | (Returned _, lastIP') =>
            (Returned (Mask (Some (canonical_address (IPNet_IP n))) (IPNet_Mask n),
                       Some lastIP'),
             write_back (family_var f) lastIP' g)
        | (Panicked p, lastIP') =>
            (Panicked p, write_back (family_var f) lastIP' g)
        end
    end.
Proof.
  unfold networkRange, family_of, canonical_address.
  destruct (To4 (IPNet_IP n)) as [a|] eqn:E4.
  - intros [= <-]. reflexivity.
  - destruct (len (IPNet_IP n) =? IPv6len)%nat eqn:E16; [|discriminate].
    intros [= <-]. unfold To16. apply Nat.eqb_eq in E16. rewrite E16. simpl.
    destruct (IPNet_IP n); [reflexivity | discriminate E16].
Qed.

(** Where the view shares its bytes with the package variable, the view
    holds what was written through it. *)
Lemma write_back_view (r : zero_var) (l l' : list Z) (g : Globals) :
  view r g = Some l -> length l' = length l ->
  length (IPv6zero g) = IPv6len ->
  view r (write_back r l' g) = Some l'.
Proof.
  intros Hview Hlen H6. unfold write_back, view in *.
  destruct r.
  - unfold To4, len in *. simpl in *.
    destruct (length (IPv4zero g) =? IPv4len)%nat eqn:E4.
    + injection Hview as <-. apply Nat.eqb_eq in E4. simpl.
      rewrite Hlen, E4. reflexivity.
    + destruct (_ && _) eqn:E; [|discriminate Hview].
      injection Hview as <-. simpl.
      apply andb_true_iff in E. destruct E as [E E11].
      apply andb_true_iff in E. destruct E as [E E10].
      apply andb_true_iff in E. destruct E as [E16 Ez].
      apply Nat.eqb_eq in E16.
      assert (Hl' : length l' = 4%nat) by (rewrite Hlen, length_drop, E16; reflexivity).
      assert (Hlen16 : length (take 12 (IPv4zero g) ++ l') = 16%nat).
      { rewrite length_app, length_take, E16, Hl'. reflexivity. }
      rewrite Hlen16. simpl.
      rewrite take_app_le by (rewrite length_take, E16; simpl; lia).
      rewrite take_take. simpl Nat.min. rewrite Ez.
      rewrite !lookup_total_app_l by (rewrite length_take, E16; simpl; lia).
      rewrite !list_lookup_total_alt, !lookup_take_lt by lia.
      rewrite <- !list_lookup_total_alt, E10, E11. simpl.
      rewrite drop_app_length' by (rewrite length_take, E16; reflexivity).
      reflexivity.
  - unfold To16, len in *. simpl in *. rewrite H6 in *. simpl in *.
    injection Hview as <-. rewrite Hlen, H6. reflexivity.
Qed.

(** The last address returned for a valid network is not a fresh slice:
    it is the view of [net.IPv4zero] or [net.IPv6zero] that the code
    started from, so after the call the package variable holds that
    address, and the next call for the same family overwrites the slice
    that this call returned. *)
Theorem networkRange_last_is_package_variable (n : IPNet) (g : Globals) :
  valid_network n = true -> globals_ok g -> length (IPv6zero g) = IPv6len ->
  exists f firstIP lastIP,
    family_of (IPNet_IP n) = Some f
    /\ fst (networkRange n g) = Returned (firstIP, Some lastIP)
    /\ view (family_var f) (snd (networkRange n g)) = Some lastIP.
Proof.
  intros Hv Hg H6.
  destruct (valid_network_inv n Hv) as (_ & _ & f & Hf & Hw).
  pose proof (canonical_address_length _ _ Hf) as Hca.
  assert (Hcap : len (getNetMaskWithMax16Bits (IPNet_Mask n)) = width f).
  { rewrite getNetMaskWithMax16Bits_len; [exact Hw |].
    rewrite Hw. destruct f; auto. }
  assert (Hview : len (view (family_var f) g) = width f)
    by (destruct Hg; destruct f; assumption).
  rewrite (networkRange_family n g f Hf).
  destruct (view (family_var f) g) as [l|] eqn:Ev;
    [| destruct f; discriminate Hview].
  unfold len in Hview, Hcap. simpl in Hview.
  rewrite networkRange_loop_returns; unfold len; simpl; try lia.
  exists f. eexists. eexists. split; [exact Hf |]. split; [reflexivity |].
  apply (write_back_view _ l); [exact Ev | | exact H6].
  rewrite length_drop, length_take, last_bytes_length. lia.
Qed.

Lemma networkRange_last_is_package_variable_witness :
  exists f firstIP lastIP,
    family_of (Some [10; 0; 0; 0]) = Some f
    /\ fst (networkRange (mkIPNet (Some [10; 0; 0; 0]) (CIDRMask 8 32)) Globals_init)
       = Returned (firstIP, Some lastIP)
    /\ view (family_var f)
            (snd (networkRange (mkIPNet (Some [10; 0; 0; 0]) (CIDRMask 8 32))
                               Globals_init))
       = Some lastIP.
Proof.
  apply (networkRange_last_is_package_variable
           (mkIPNet (Some [10; 0; 0; 0]) (CIDRMask 8 32)) Globals_init).
  - reflexivity.
  - split; reflexivity.
  - reflexivity.
Defined.

Lemma networkRange_globals_ok_witness :
  globals_ok (snd (networkRange (mkIPNet (Some [32; 1; 13; 184; 0; 0; 0; 0;
                                               0; 0; 0; 0; 0; 0; 0; 0])
                                         (CIDRMask 8 32)) Globals_init)).
Proof.
  apply (networkRange_globals_ok
           (mkIPNet (Some [32; 1; 13; 184; 0; 0; 0; 0; 0; 0; 0; 0; 0; 0; 0; 0])
                    (CIDRMask 8 32)) Globals_init).
  split; reflexivity.
Defined.

(** The loop started at index 0 on two slices of one length ends the
    same way, and with the same bytes when it runs to its end. *)
Lemma networkRange_loop_same_length (netIP intMask : slice) (l l' : list Z) :
  length l = length l' ->
  fst (networkRange_loop (length l) 0 netIP intMask l)
  = fst (networkRange_loop (length l') 0 netIP intMask l')
  /\ (fst (networkRange_loop (length l) 0 netIP intMask l) = Returned tt ->
      snd (networkRange_loop (length l) 0 netIP intMask l)
      = snd (networkRange_loop (length l') 0 netIP intMask l')).
Proof.
  intros Hlen.
  destruct (le_lt_dec (length l) (Nat.min (len netIP) (len intMask))) as [Hle|Hlt].
  - rewrite !networkRange_loop_returns by lia. rewrite Hlen. simpl. auto.
  - rewrite !networkRange_loop_panics by lia. split; [reflexivity | discriminate].
Qed.

(** What [networkRange] returns, or that it panics, does not depend on
    what the package variables hold when it is called: the loop writes
    every byte of [lastIP] before the function returns it. *)
Theorem networkRange_result_independent_of_globals (n : IPNet) (g g' : Globals) :
  globals_ok g -> globals_ok g' ->
  fst (networkRange n g) = fst (networkRange n g').
Proof.
  intros Hg Hg'. unfold networkRange.
  destruct (match To4 (IPNet_IP n) with
            | Some _ as netIP => (netIP, Var_IPv4zero)
            | None => (To16 (IPNet_IP n), Var_IPv6zero)
            end) as [netIP r].
  assert (Hw : exists w, (0 < w)%nat /\ len (view r g) = w /\ len (view r g') = w).
  { destruct Hg as [H4 H6], Hg' as [H4' H6'], r.
    - exists IPv4len. unfold IPv4len at 1. split; [lia | auto].
    - exists IPv6len. unfold IPv6len at 1. split; [lia | auto]. }
  destruct Hw as (w & Hpos & Hl & Hl').
  destruct (view r g) as [l|]; [|unfold len in Hl; simpl in Hl; lia].
  destruct (view r g') as [l'|]; [|unfold len in Hl'; simpl in Hl'; lia].
  unfold len in Hl, Hl'. simpl in Hl, Hl'.
  destruct (networkRange_loop_same_length netIP
              (getNetMaskWithMax16Bits (IPNet_Mask n)) l l' ltac:(lia)) as [Ho Hsnd].
  destruct (networkRange_loop (length l) _ _ _ _) as [[[]|p] l1],
           (networkRange_loop (length l') _ _ _ _) as [[[]|p'] l1'];
    simpl in *; try discriminate Ho.
  - rewrite (Hsnd eq_refl). reflexivity.
  - injection Ho as ->. reflexivity.
Qed.

Lemma networkRange_result_independent_of_globals_witness :
  fst (networkRange (mkIPNet (Some [10; 0; 0; 0]) (CIDRMask 8 32)) Globals_init)
  = fst (networkRange (mkIPNet (Some [10; 0; 0; 0]) (CIDRMask 8 32))
           (snd (networkRange (mkIPNet (Some [192; 168; 3; 4]) (CIDRMask 24 32))
                              Globals_init))).
Proof.
  apply (networkRange_result_independent_of_globals
           (mkIPNet (Some [10; 0; 0; 0]) (CIDRMask 8 32))
           Globals_init
           (snd (networkRange (mkIPNet (Some [192; 168; 3; 4]) (CIDRMask 24 32))
                              Globals_init))).
  - split; reflexivity.
  - split; reflexivity.
Defined.

(** When a slice is too short, the loop has written the bytes up to the
    shorter length before it stops. *)
Lemma networkRange_loop_panic_writes (steps : nat) :
  forall (i : nat) (netIP intMask : slice) (lastIP : list Z),
    (i <= Nat.min (len netIP) (len intMask))%nat ->
    (Nat.min (len netIP) (len intMask) < i + steps)%nat ->
    (i + steps)%nat = length lastIP ->
    snd (networkRange_loop steps i netIP intMask lastIP)
    = take i lastIP
      ++ drop i (last_bytes (bytes netIP) (bytes intMask))
      ++ drop (Nat.min (len netIP) (len intMask)) lastIP.
Proof.
  induction steps as [|steps IH]; intros i netIP intMask lastIP Hi Hshort Hlen.
  - lia.
  - simpl. unfold index, len in *.
    destruct (bytes netIP !! i) as [x|] eqn:Hx;
      [destruct (bytes intMask !! i) as [y|] eqn:Hy |].
    + pose proof (lookup_lt_Some _ _ _ Hx). pose proof (lookup_lt_Some _ _ _ Hy).
      rewrite IH; unfold len; rewrite ?length_insert; try lia.
      rewrite (take_S_r _ i (Z.lor x (byte_not y)))
        by (apply list_lookup_insert_eq; lia).
      rewrite take_insert_ge by lia.
      rewrite drop_insert_lt by lia.
      rewrite (drop_S (last_bytes _ _) _ i (last_bytes_lookup _ _ _ _ _ Hx Hy)).
      rewrite <- app_assoc. reflexivity.
    + apply lookup_ge_None in Hy. simpl.
      assert (Hk : Nat.min (length (bytes netIP)) (length (bytes intMask)) = i) by lia.
      rewrite Hk, (drop_ge (last_bytes _ _)) by (rewrite last_bytes_length; lia).
      simpl. symmetry. apply take_drop.
    + apply lookup_ge_None in Hx. simpl.
      assert (Hk : Nat.min (length (bytes netIP)) (length (bytes intMask)) = i) by lia.
      rewrite Hk, (drop_ge (last_bytes _ _)) by (rewrite last_bytes_length; lia).
      simpl. symmetry. apply take_drop.
Qed.

(** A call that panics is not without effect: when the capped mask has
    fewer bytes than the width of the address family, the call stops
    with an index out of range after it has overwritten as many leading
    bytes of the package variable as the capped mask has. *)
Theorem networkRange_panic_leaves_writes (n : IPNet) (g : Globals) (f : family) :
  family_of (IPNet_IP n) = Some f ->
  (len (getNetMaskWithMax16Bits (IPNet_Mask n)) < width f)%nat ->
  globals_ok g -> length (IPv6zero g) = IPv6len ->
  exists l,
    view (family_var f) g = Some l
    /\ fst (networkRange n g) = Panicked IndexOutOfRange
    /\ view (family_var f) (snd (networkRange n g))
       = Some (last_bytes (canonical_address (IPNet_IP n))
                          (bytes (getNetMaskWithMax16Bits (IPNet_Mask n)))
               ++ drop (len (getNetMaskWithMax16Bits (IPNet_Mask n))) l).
Proof.
  intros Hf Hshort Hg H6.
  pose proof (canonical_address_length _ _ Hf) as Hca.
  assert (Hview : len (view (family_var f) g) = width f)
    by (destruct Hg; destruct f; assumption).
  rewrite (networkRange_family n g f Hf).
  destruct (view (family_var f) g) as [l|] eqn:Ev;
    [| destruct f; discriminate Hview].
  unfold len in Hview. simpl in Hview. exists l. split; [reflexivity |].
  set (a := canonical_address (IPNet_IP n)) in *.
  set (c := getNetMaskWithMax16Bits (IPNet_Mask n)) in *.
  assert (Hmin : Nat.min (len (Some a)) (len c) = len c)
    by (unfold len in *; simpl; lia).
  pose proof (networkRange_loop_panics (length l) 0 (Some a) c l
                ltac:(lia) ltac:(lia)) as Hp.
  pose proof (networkRange_loop_panic_writes (length l) 0 (Some a) c l
                ltac:(lia) ltac:(lia) eq_refl) as Hs.
  rewrite Hmin in Hs. simpl in Hs.
  destruct (networkRange_loop (length l) 0 (Some a) c l) as [o l1].
  simpl in Hp, Hs. subst o l1. split; [reflexivity |]. cbn [snd].
  apply (write_back_view _ l); [exact Ev | | exact H6].
  rewrite length_app, length_drop, last_bytes_length. unfold len in *. lia.
Qed.

Lemma networkRange_panic_leaves_writes_witness :
  exists l,
    view (family_var FamilyIPv6) Globals_init = Some l
    /\ fst (networkRange
              (mkIPNet (Some [32; 1; 13; 184; 0; 0; 0; 0; 0; 0; 0; 0; 0; 0; 0; 0])
                       (CIDRMask 8 32)) Globals_init)
       = Panicked IndexOutOfRange
    /\ view (family_var FamilyIPv6)
            (snd (networkRange
                    (mkIPNet (Some [32; 1; 13; 184; 0; 0; 0; 0; 0; 0; 0; 0; 0; 0; 0; 0])
                             (CIDRMask 8 32)) Globals_init))
       = Some (last_bytes
                 (canonical_address
                    (Some [32; 1; 13; 184; 0; 0; 0; 0; 0; 0; 0; 0; 0; 0; 0; 0]))
                 (bytes (getNetMaskWithMax16Bits (CIDRMask 8 32)))
               ++ drop (len (getNetMaskWithMax16Bits (CIDRMask 8 32))) l).
Proof.
  apply (networkRange_panic_leaves_writes
           (mkIPNet (Some [32; 1; 13; 184; 0; 0; 0; 0; 0; 0; 0; 0; 0; 0; 0; 0])
                    (CIDRMask 8 32)) Globals_init FamilyIPv6).
  - reflexivity.
  - vm_compute. lia.
  - split; reflexivity.
  - reflexivity.
Defined.

(** [networkRange] uses an IPv4 address through its 4-byte form only:
    the 16-byte form of the address, as [net.ParseIP] and [net.IPv4]
    give it, has the same result and the same effect as the 4-byte
    form. *)
Theorem networkRange_IPv4_forms (ip : IP) (a : list Z) (mask : IPMask) (g : Globals) :
  To4 ip = Some a ->
  networkRange (mkIPNet ip mask) g = networkRange (mkIPNet (Some a) mask) g.
Proof.
  intros H4. pose proof (To4_length _ _ H4) as Hlen.
  assert (H4' : To4 (Some a) = Some a).
  { unfold To4, len. simpl. rewrite Hlen. reflexivity. }
  unfold networkRange. simpl. rewrite H4, H4'. reflexivity.
Qed.

Lemma networkRange_IPv4_forms_witness :
  networkRange (mkIPNet (IPv4 192 168 1 77) (CIDRMask 24 32)) Globals_init
  = networkRange (mkIPNet (Some [192; 168; 1; 77]) (CIDRMask 24 32)) Globals_init.
Proof.
  apply (networkRange_IPv4_forms (IPv4 192 168 1 77) [192; 168; 1; 77]).
  reflexivity.
Defined.

(** ** More on [randomMACAddress] *)

Lemma mac_string_octets (x b1 b2 : Z) :
  byte_ok x -> byte_ok b1 -> byte_ok b2 ->
  map (octet (mac_string x b1 b2)) [0; 1; 2; 3; 4; 5]%nat
  = [Some 82; Some 84; Some 0; Some x; Some b1; Some b2].
Proof.
  intros Hx H1 H2.
  destruct (Sprintf_02x_value x Hx) as [Hxh Hxl].
  destruct (Sprintf_02x_value b1 H1) as [H1h H1l].
  destruct (Sprintf_02x_value b2 H2) as [H2h H2l].
  unfold octet, mac_string, fmt.Sprintf_02x.
  cbn [String.append map Nat.mul Nat.add String.get].
  simpl String.get. rewrite Hxh, Hxl, H1h, H1l, H2h, H2l.
  unfold byte_ok in *.
  pose proof (Z.div_mod x 16 ltac:(lia)).
  pose proof (Z.div_mod b1 16 ltac:(lia)).
  pose proof (Z.div_mod b2 16 ltac:(lia)).
  repeat f_equal; lia.
Qed.

(** The two statements that set the bits and the test for 0xfe amount to
    this: the upper six bits of the random byte with the lower two set
    to 10, and 0xee for the four bytes from 0xfc on. *)
Lemma mac_first_byte_formula (b : Z) :
  byte_ok b ->
  (let x := Z.lor (Z.land (Z.lor b 2) 254) 2 in if x =? 254 then 238 else x)
  = (if 252 <=? b then 238 else Z.land b 252 + 2).
Proof.
  intros Hb. apply Z.eqb_eq.
  by_byte_cases
    (fun b => (let x := Z.lor (Z.land (Z.lor b 2) 254) 2 in
               if x =? 254 then 238 else x)
              =? (if 252 <=? b then 238 else Z.land b 252 + 2)) Hb.
Qed.

Section MACOctets.
Context {S : Type} `{rand.Source S}.

(** The string that a successful call returns reads back, octet by
    octet, as 0x52, 0x54, 0x00, then the first byte that [rand.Read]
    supplied with its lower two bits set to 10, or 0xee when that byte is
    0xfc or more, then the second and the third byte unchanged. *)
Theorem randomMACAddress_octets (now : Z) (s s' : S) (mac : string) :
  randomMACAddress now s = ((mac, None), s') ->
  exists b0 b1 b2,
    fst (fst (rand.Read 3 (rand.Seed now s))) = [b0; b1; b2]
    /\ map (octet mac) [0; 1; 2; 3; 4; 5]%nat
       = [Some 82; Some 84; Some 0;
          Some (if 252 <=? b0 then 238 else Z.land b0 252 + 2);
          Some b1; Some b2].
Proof.
  intros Hret.
  destruct (randomMACAddress_unfold now s)
    as (b0 & b1 & b2 & H0 & H1 & H2 & Hread & Heq).
  rewrite Hret in Heq.
  destruct (snd (fst (rand.Read 3 (rand.Seed now s)))) as [e|];
    [discriminate Heq |].
  cbv zeta in Heq. injection Heq as -> _.
  exists b0, b1, b2. split; [exact Hread |].
  destruct (mac_first_byte b0 H0) as (Hy & _).
  pose proof (mac_first_byte_formula b0 H0) as Hform.
  cbv zeta in Hy, Hform. rewrite <- Hform.
  apply mac_string_octets; assumption.
Qed.

End MACOctets.

Lemma randomMACAddress_octets_witness :
  exists b0 b1 b2,
    fst (fst (rand.Read 3 (rand.Seed 12345 0))) = [b0; b1; b2]
    /\ map (octet "52:54:00:de:04:65") [0; 1; 2; 3; 4; 5]%nat
       = [Some 82; Some 84; Some 0;
          Some (if 252 <=? b0 then 238 else Z.land b0 252 + 2);
          Some b1; Some b2].
Proof.
  apply (randomMACAddress_octets (S := Z) 12345 0 1449466924 "52:54:00:de:04:65").
  reflexivity.
Defined.

(** ** The number of addresses in the range *)

Lemma ip_value_add (a : list Z) :
  forall b, length a = length b ->
    ip_value (zip_with Z.add a b) = ip_value a + ip_value b.
Proof.
  induction a as [|x a IH]; intros [|y b] Hlen; simpl in *; try discriminate;
    [reflexivity |].
  injection Hlen as Hlen. rewrite IH by exact Hlen.
  rewrite length_zip_with, <- Hlen, Nat.min_id. lia.
Qed.

Lemma byte_lor_disjoint (x c : Z) :
  byte_ok x -> byte_ok c -> Z.land x (byte_not c) = 0 ->
  Z.lor x (byte_not c) = x + byte_not c.
Proof.
  intros Hx Hc H.
  pose proof (byte_cases2
    (fun x c => negb (Z.land x (byte_not c) =? 0)
                || (Z.lor x (byte_not c) =? x + byte_not c))
    ltac:(vm_compute; reflexivity) x c Hx Hc) as HP.
  cbv beta in HP. rewrite H in HP. now apply Z.eqb_eq in HP.
Qed.

(** On a masked address, setting the host bits of a mask that covers the
    mask of the network adds them. *)
Lemma last_bytes_add (a : list Z) :
  forall c m,
    Forall byte_ok a -> Forall byte_ok c -> Forall byte_ok m ->
    mask_covers c m = true -> length a = length m ->
    zip_with Z.land a m = a ->
    last_bytes a c = zip_with Z.add a (map byte_not c).
Proof.
  unfold mask_covers, last_bytes.
  induction a as [|x a IH]; intros [|z c] [|y m] Ha Hc Hm Hcov Hlen Hbase;
    simpl in *; try reflexivity; try discriminate.
  apply Forall_cons in Ha, Hc, Hm.
  destruct Ha as [Hx Ha], Hc as [Hz Hc], Hm as [Hy Hm].
  apply andb_true_iff in Hcov. destruct Hcov as [Hl Hcov].
  apply andb_true_iff in Hcov. destruct Hcov as [Hzy Hcov].
  apply Z.eqb_eq in Hzy. injection Hbase as Hxy Hbase. injection Hlen as Hlen.
  f_equal.
  - apply byte_lor_disjoint; [exact Hx | exact Hz |].
    rewrite <- Hxy, <- Z.land_assoc, (Z.land_comm y).
    rewrite (byte_not_covered z y Hz Hy Hzy). apply Z.land_0_r.
  - apply (IH c m); auto. rewrite Hl. exact Hcov.
Qed.

(** The host bits of the capped mask of a prefix mask spell
    [2 ^ min (host bits) 16 - 1]. *)
Lemma capped_mask_host_value (m : IPMask) :
  prefix_mask m = true ->
  ip_value (map byte_not (bytes (getNetMaskWithMax16Bits m)))
  = 2 ^ Z.min (host_bits m) 16 - 1.
Proof.
  intros Hp. destruct (prefix_mask_inv m Hp) as (Hlen & Hok & Hotz).
  pose proof (prefix_mask_CIDRMask m Hp) as Hm.
  pose proof (count_ones_bounds (mask_bits (bytes m))) as Hc.
  assert (Htot : total_bits m = Z.of_nat (len m) * 8).
  { unfold total_bits, len. apply mask_bits_length. }
  unfold host_bits. rewrite mask_bits_length in Hc.
  assert (Hall : forall bits, bits = 32 \/ bits = 128 ->
            forallb (host_count_checks bits) (seq 0 (S (Z.to_nat bits))) = true)
    by (intros bits [->| ->]; vm_compute; reflexivity).
  assert (Hbits : total_bits m = 32 \/ total_bits m = 128).
  { rewrite Htot. destruct Hlen as [-> | ->]; [left | right]; reflexivity. }
  specialize (Hall _ Hbits). rewrite forallb_forall in Hall.
  unfold prefix_bits in *. unfold len in Htot. rewrite <- Htot in Hc.
  specialize (Hall (Z.to_nat (count_ones (mask_bits (bytes m))))
                   ltac:(apply in_seq; lia)).
  unfold host_count_checks in Hall. rewrite Z2Nat.id in Hall by lia.
  rewrite <- Hm in Hall. now apply Z.eqb_eq in Hall.
Qed.

(** For a valid network with a prefix mask whose address is the network
    address, the range holds [2 ^ min (host bits) 16] addresses: the
    first one is the address and the last one is that many minus one
    further, 65535 at most. *)
Theorem networkRange_address_count (n : IPNet) (g : Globals) :
  valid_network n = true -> prefix_mask (IPNet_Mask n) = true ->
  zip_with Z.land (canonical_address (IPNet_IP n)) (bytes (IPNet_Mask n))
  = canonical_address (IPNet_IP n) ->
  globals_ok g ->
  exists lastIP,
    fst (networkRange n g)
    = Returned (Some (canonical_address (IPNet_IP n)), Some lastIP)
    /\ ip_value lastIP - ip_value (canonical_address (IPNet_IP n))
       = 2 ^ Z.min (host_bits (IPNet_Mask n)) 16 - 1
    /\ ip_value lastIP - ip_value (canonical_address (IPNet_IP n)) <= 65535.
Proof.
  intros Hv Hp Hbase Hg. destruct (networkRange_valid n g Hv Hg) as [g' ->].
  destruct (valid_network_inv n Hv) as (Hip & Hm & f & Hf & Hw).
  pose proof (canonical_address_length _ _ Hf) as Hca.
  pose proof (canonical_address_ok _ _ Hip Hf) as Haok.
  assert (Hcap : len (getNetMaskWithMax16Bits (IPNet_Mask n)) = width f).
  { rewrite getNetMaskWithMax16Bits_len; [exact Hw |].
    rewrite Hw. destruct f; auto. }
  unfold len in Hw, Hcap.
  rewrite Hbase. eexists. split; [reflexivity |].
  rewrite (last_bytes_add _ _ (bytes (IPNet_Mask n))); auto; try lia.
  - rewrite ip_value_add by (rewrite length_map; lia).
    rewrite capped_mask_host_value by exact Hp.
    split; [lia |].
    assert (2 ^ Z.min (host_bits (IPNet_Mask n)) 16 <= 2 ^ 16).
    { destruct (Z_lt_le_dec (Z.min (host_bits (IPNet_Mask n)) 16) 0) as [Hneg|Hpos].
      - rewrite Z.pow_neg_r by exact Hneg. lia.
      - apply Z.pow_le_mono_r; lia. }
    lia.
  - apply getNetMaskWithMax16Bits_ok, Hm.
  - apply capped_mask_covers, Hp.
Qed.

Lemma networkRange_address_count_witness :
  exists lastIP,
    fst (networkRange (mkIPNet (Some [10; 0; 0; 0]) (CIDRMask 8 32)) Globals_init)
    = Returned (Some (canonical_address (Some [10; 0; 0; 0])), Some lastIP)
    /\ ip_value lastIP - ip_value (canonical_address (Some [10; 0; 0; 0]))
       = 2 ^ Z.min (host_bits (CIDRMask 8 32)) 16 - 1
    /\ ip_value lastIP - ip_value (canonical_address (Some [10; 0; 0; 0])) <= 65535.
Proof.
  apply (networkRange_address_count
           (mkIPNet (Some [10; 0; 0; 0]) (CIDRMask 8 32)) Globals_init).
  - reflexivity.
  - reflexivity.
  - reflexivity.
  - split; reflexivity.
Defined.

(** ** Masks of at most two bytes *)

(** A mask of at most two bytes, the nil mask and the empty one
    included, has at most 16 bits in all and is returned unchanged. *)
Theorem getNetMaskWithMax16Bits_short_mask (m : IPMask) :
  forallb byte_okb (bytes m) = true -> (len m <= 2)%nat ->
  getNetMaskWithMax16Bits m = m.
Proof.
  intros Hok Hlen. apply forallb_byte_okb in Hok.
  pose proof (Size_bits m Hok) as HS.
  pose proof (count_ones_bounds (mask_bits (bytes m))) as Hc.
  assert (Htot : total_bits m = Z.of_nat (len m) * 8).
  { unfold total_bits, len. apply mask_bits_length. }
  destruct (getNetMaskWithMax16Bits_cases m)
    as [[Hm _]|[[_ [Hh _]]|[_ [Hh _]]]]; [exact Hm | |];
    rewrite HS in Hh;
    destruct (ones_then_zeros (mask_bits (bytes m)));
    cbn [fst snd] in Hh; unfold prefix_bits in Hh; lia.
Qed.

Lemma getNetMaskWithMax16Bits_short_mask_witness :
  getNetMaskWithMax16Bits (Some [128; 0]) = Some [128; 0].
Proof.
  apply (getNetMaskWithMax16Bits_short_mask (Some [128; 0])).
  - reflexivity.
  - unfold len. simpl. lia.
Defined.
